(** * Date pairing: the matching model of [matchmaker.py]

    A shallow embedding of [MatchTracker] and [MatchMaker]: the candidate
    pairs, the decision variables, the linear program handed to the solver
    and the extraction of the result.  Python exceptions are values of an
    error monad; the variable store is a finite map from the candidate-pair
    key to the variable object, whose [varValue] the solver writes.

    Numbers: the scores are Python floats, that is IEEE 754 doubles, and are
    Rocq's primitive floats here, with the same operations and the same
    rounding; the decision variables are declared [LpInteger], so their
    values are integers ([Z]); the constraints have integer coefficients and
    bounds, held as rationals ([Q]). *)

From Stdlib Require Import QArith Floats.
From stdpp Require Import base option list gmap strings.

Local Open Scope nat_scope.

(** As in Python, the literal [0.1] stands for the double nearest to it. *)
Set Warnings "-inexact-float".

(** ** Exceptions *)

Inductive exn : Type :=
  | KeyError
  | IndexError
  | TypeError
  | ValueError
  | AttributeError
  | ZeroDivisionError.

Inductive result (A : Type) : Type :=
  | Ok (a : A)
  | Raise (e : exn).

Arguments Ok {A} a.
Arguments Raise {A} e.

#[global] Instance result_ret : MRet result := λ A a, Ok a.
#[global] Instance result_bind : MBind result := λ A B k m,
  match m with
  | Ok a => k a
  | Raise e => Raise e
  end.

(** A list comprehension [[f x for x in l]] whose body may raise is stdpp's
    [mapM f l] at this monad; this is [[x for x in l if c x]], whose condition
    may raise. *)
Fixpoint filterM {A} (c : A → result bool) (l : list A) : result (list A) :=
  match l with
  | [] => Ok []
  | x :: l' =>
      b ← c x;
      xs ← filterM c l';
      mret (if b : bool then x :: xs else xs)
  end.

(** [l[i]] for a non-negative index. *)
Definition getitem {A} (l : list A) (i : nat) : result A :=
  match l !! i with
  | Some x => Ok x
  | None => Raise IndexError
  end.

(** Unpacking [a, b = t]. *)
Definition unpack2 {A} (t : list A) : result (A * A) :=
  match t with
  | [a; b] => Ok (a, b)
  | _ => Raise ValueError
  end.

(** A loop whose body may raise, threading the loop's state. *)
Fixpoint foldlM {A S} (f : S → A → result S) (s : S) (l : list A) : result S :=
  match l with
  | [] => Ok s
  | x :: l' => s' ← f s x; foldlM f s' l'
  end.

(** [enumerate(l)] *)
Definition enumerate {A} (l : list A) : list (nat * A) := imap pair l.

(** A [defaultdict] in insertion order: [d[k] = f(d[k])], with
    [d[k]] starting from [dflt] when [k] is new. *)
Fixpoint defaultdict_update {V} (dflt : V) (f : V → V) (k : string)
    (d : list (string * V)) : list (string * V) :=
  match d with
  | [] => [(k, f dflt)]
  | (k', v) :: d' =>
      if String.eqb k' k then (k', f v) :: d'
      else (k', v) :: defaultdict_update dflt f k d'
  end.

(** ** Candidate pairs *)

(** A Python tuple of indices. *)
Abbreviation tuple := (list nat).

(** [itertools.combinations(l, k)], in its lexicographic order. *)
Fixpoint combination {A} (l : list A) (k : nat) : list (list A) :=
  match l with
  | [] => match k with 0 => [[]] | S _ => [] end
  | x :: xs =>
      match k with
      | 0 => [[]]
      | S k' => map (cons x) (combination xs k') ++ combination xs k
      end
  end.

(** [pulp.allcombinations(orgset, k)]: the combinations of 1 up to [k]
    items, chained. *)
Definition allcombinations {A} (orgset : list A) (k : nat) : list (list A) :=
  concat (map (combination orgset) (seq 1 k)).

(** [range(n)] *)
Definition range (n : nat) : list nat := seq 0 n.

(** [len(set(c))] *)
Definition len_set (c : tuple) : nat := length (remove_dups c).

(** [MatchTracker.__init__], the two statements building
    [self.possible_matches]. *)
Definition build_possible_matches (n : nat) : list tuple :=
  filter (λ c, len_set c = 2) (allcombinations (range n) 2)
  ++ map (λ idx, [idx; idx]) (range n).

(** ** Decision variables and linear expressions *)

Inductive LpCategory : Type := LpContinuous | LpInteger | LpBinary.

(** An [LpVariable] object; the solver writes [varValue]. *)
Record LpVariable : Type := mkLpVariable {
  lowBound : Z;
  upBound : Z;
  cat : LpCategory;
  varValue : option Z
}.

(** The variable objects live in one store, keyed by candidate pair; an
    expression refers to a variable by that key. *)
Abbreviation store := (gmap tuple LpVariable).

(** [LpVariable.dicts(name, indices, lowBound, upBound, cat)] *)
Definition LpVariable_dicts (indices : list tuple) (lb ub : Z)
    (c : LpCategory) : store :=
  foldl (λ d i, <[i := mkLpVariable lb ub c None]> d) ∅ indices.

(** [d[k]], the variable stored under [k]. *)
Definition getvar (d : store) (k : tuple) : result tuple :=
  match d !! k with
  | Some _ => Ok k
  | None => Raise KeyError
  end.

(** The linear expression of a constraint, as the list of its terms
    (variable, coefficient) in the order they were added; what the solver
    sees of it is its value, [expr_value] below. *)
Abbreviation LpAffineExpression := (list (tuple * Q)).

(** [LpAffineExpression(variable)], the expression [1*variable]. *)
Definition var_expr (v : tuple) : LpAffineExpression := [(v, 1%Q)].

(** [lpSum] of a list of expressions, and of a list of variables. *)
Definition lpSum (es : list LpAffineExpression) : LpAffineExpression :=
  concat es.
Definition lpSum_vars (vs : list tuple) : LpAffineExpression :=
  lpSum (map var_expr vs).

Inductive LpConstraintSense : Type :=
  | LpConstraintLE
  | LpConstraintEQ
  | LpConstraintGE.

Record LpConstraint : Type := mkLpConstraint {
  c_expr : LpAffineExpression;
  c_sense : LpConstraintSense;
  c_rhs : Q
}.

Inductive LpSense : Type := LpMinimize | LpMaximize.

Inductive LpStatus : Type :=
  | LpStatusNotSolved
  | LpStatusOptimal
  | LpStatusInfeasible
  | LpStatusUnbounded
  | LpStatusUndefined.

(** The table [LpStatus] of pulp. *)
Definition LpStatus_name (s : LpStatus) : string :=
  match s with
  | LpStatusNotSolved => "Not Solved"
  | LpStatusOptimal => "Optimal"
  | LpStatusInfeasible => "Infeasible"
  | LpStatusUnbounded => "Unbounded"
  | LpStatusUndefined => "Undefined"
  end.

(** ** The objective

    The objective is the one expression of the problem with float
    coefficients, and the one that can come to hold [__dummy], the variable
    that pulp puts into an objective without terms. *)

(** [x != 0] on a float, which is also its truth value. *)
Definition nonzero (x : float) : bool := negb (PrimFloat.eqb x 0).

(** The float of an integer, rounded to nearest. *)
Definition Z2float (z : Z) : float :=
  SF2Prim (binary_normalize prec emax z 0 false).

(** The variables of an objective: a match variable, referred to by its key
    in the store, or the [__dummy] variable of the problem. *)
Inductive LpElement : Type :=
  | MatchVariable (pm : tuple)
  | DummyVariable.

#[global] Instance LpElement_eq_dec : EqDecision LpElement.
Proof. solve_decision. Defined.

(** An expression with float coefficients: its terms in the order of the
    dictionary, and its constant. *)
Record LpObjective : Type := mkLpObjective {
  o_terms : list (LpElement * float);
  o_constant : float
}.

(** [self.addterm(key, value)]: the coefficient of a key that has one other
    than 0 grows by [value]; any other key gets the coefficient [value]. *)
Fixpoint addterm (key : LpElement) (value : float)
    (e : list (LpElement * float)) : list (LpElement * float) :=
  match e with
  | [] => [(key, value)]
  | (k, y) :: e' =>
      if decide (k = key)
      then (k, if nonzero y then (y + value)%float else value) :: e'
      else (k, y) :: addterm key value e'
  end.

(** [self.addInPlace(other)] for an expression [other]. *)
Definition addInPlace (self other : LpObjective) : LpObjective :=
  mkLpObjective
    (foldl (λ e '(v, x), addterm v x e) (o_terms self) (o_terms other))
    (o_constant self + o_constant other)%float.

(** [variable * other] for a float [other]: pulp computes
    [LpAffineExpression(variable) * other], which is the empty expression
    when [other] is 0 and else has the term of the variable with coefficient
    [other] (times its coefficient 1) and the constant [0 * other]. *)
Definition var_mul (variable : tuple) (other : float) : LpObjective :=
  if nonzero other
  then mkLpObjective [(MatchVariable variable, other)] (0 * other)%float
  else mkLpObjective [] 0%float.

(** [lpSum(vector)] for a list of such expressions:
    [LpAffineExpression().addInPlace(vector)]. *)
Definition lpSum_scores (vector : list LpObjective) : LpObjective :=
  foldl addInPlace (mkLpObjective [] 0%float) vector.

(** [self.isNumericalConstant()] *)
Definition isNumericalConstant (e : LpObjective) : bool :=
  match o_terms e with [] => true | _ :: _ => false end.

Record LpProblem : Type := mkLpProblem {
  prob_name : string;
  sense : LpSense;
  objective : option LpObjective;
  constraints : list LpConstraint;
  status : LpStatus;
  dummyVar : option LpVariable
}.

(** [LpProblem(name, sense)] *)
Definition LpProblem_new (name : string) (s : LpSense) : LpProblem :=
  mkLpProblem name s None [] LpStatusNotSolved None.

(** [prob += expression] sets the objective, [prob += constraint] adds a
    constraint. *)
Definition iadd_objective (p : LpProblem) (e : LpObjective) : LpProblem :=
  mkLpProblem (prob_name p) (sense p) (Some e) (constraints p) (status p)
    (dummyVar p).
Definition iadd_constraint (p : LpProblem) (c : LpConstraint) : LpProblem :=
  mkLpProblem (prob_name p) (sense p) (objective p) (constraints p ++ [c])
    (status p) (dummyVar p).

(** [self.get_dummyVar()]: the variable [LpVariable("__dummy", 0, 0)], made
    on the first call. *)
Definition get_dummyVar (p : LpProblem) : LpProblem :=
  match dummyVar p with
  | Some _ => p
  | None =>
      mkLpProblem (prob_name p) (sense p) (objective p) (constraints p)
        (status p) (Some (mkLpVariable 0 0 LpContinuous None))
  end.

(** [self.fixObjective()]: an objective that is not set becomes the
    constant 0, and one without terms gets [__dummy] added. It returns
    whether the objective was not set and whether [__dummy] was added. *)
Definition fixObjective (p : LpProblem) : LpProblem * bool * bool :=
  let wasNone := match objective p with None => true | Some _ => false end in
  let e := default (mkLpObjective [] 0%float) (objective p) in
  if isNumericalConstant e then
    let p := get_dummyVar p in
    (mkLpProblem (prob_name p) (sense p)
       (Some (mkLpObjective (addterm DummyVariable 1%float (o_terms e))
                (o_constant e)))
       (constraints p) (status p) (dummyVar p),
     wasNone, true)
  else
    (mkLpProblem (prob_name p) (sense p) (Some e) (constraints p) (status p)
       (dummyVar p),
     wasNone, false).

(** [self.restoreObjective(wasNone, dummyVar)]: [__dummy] is subtracted
    again, which leaves it in the objective with the coefficient 0. *)
Definition restoreObjective (p : LpProblem) (wasNone dummy : bool) : LpProblem :=
  if wasNone then
    mkLpProblem (prob_name p) (sense p) None (constraints p) (status p)
      (dummyVar p)
  else if dummy then
    mkLpProblem (prob_name p) (sense p)
      ((λ e, mkLpObjective (addterm DummyVariable (-1)%float (o_terms e))
               (o_constant e)) <$> objective p)
      (constraints p) (status p) (dummyVar p)
  else p.

(** What a call of [fixObjective] and then of [restoreObjective] makes of
    the problem; [writeLP] and [solve] do their work between the two. *)
Definition fix_restore (p : LpProblem) : LpProblem :=
  let '(p', wasNone, dummy) := fixObjective p in
  restoreObjective p' wasNone dummy.

(** [prob.writeLP(filename)], for a problem whose constraints all have a
    variable: what it writes to the file is left out, what it does to the
    problem is not. *)
Definition writeLP (p : LpProblem) : LpProblem := fix_restore p.

(** [v.varValue] for a variable of the objective; the solver gives
    [__dummy] no value. *)
Definition element_value (d : store) (dummy : option LpVariable)
    (v : LpElement) : option Z :=
  match v with
  | MatchVariable k => d !! k ≫= varValue
  | DummyVariable => dummy ≫= varValue
  end.

(** [expression.value()] on the objective: [None] as soon as a variable has
    no value. *)
Fixpoint value_from (d : store) (dummy : option LpVariable) (s : float)
    (e : list (LpElement * float)) : option float :=
  match e with
  | [] => Some s
  | (v, x) :: e' =>
      match element_value d dummy v with
      | None => None
      | Some z => value_from d dummy (s + Z2float z * x)%float e'
      end
  end.

(** [expression.value()] on the expression of a constraint: [None] as soon
    as a variable has no value. *)
Fixpoint expr_value_from (d : store) (s : Q) (e : LpAffineExpression) : option Q :=
  match e with
  | [] => Some s
  | (v, x) :: e' =>
      match d !! v ≫= varValue with
      | None => None
      | Some z => expr_value_from d (s + inject_Z z * x)%Q e'
      end
  end.
Definition expr_value (d : store) (e : LpAffineExpression) : option Q :=
  expr_value_from d 0%Q e.

(** ** [MatchTracker] *)

Record MatchTracker (Person : Type) : Type := mkMatchTracker {
  persons : list Person;
  possible_matches : list tuple;
  variables : store
}.
Arguments mkMatchTracker {Person} _ _ _.
Arguments persons {Person} _.
Arguments possible_matches {Person} _.
Arguments variables {Person} _.

Section MatchTracker.
Context {Person : Type}.
Implicit Types (t : MatchTracker Person) (idx : nat) (pm : tuple).

(** [MatchTracker.__init__] *)
Definition MatchTracker_init (persons : list Person) : MatchTracker Person :=
  let possible_matches := build_possible_matches (length persons) in
  mkMatchTracker persons possible_matches
    (LpVariable_dicts possible_matches 0 1 LpInteger).

Definition get_variables_for_person t idx : result (list tuple) :=
  mapM (getvar (variables t))
    (filter (λ possible_match, idx ∈ possible_match) (possible_matches t)).

Definition get_variables_to_people t : result (list (tuple * Person * Person)) :=
  mapM (λ possible_match,
          variable ← getvar (variables t) possible_match;
          i ← getitem possible_match 0;
          person1 ← getitem (persons t) i;
          j ← getitem possible_match 1;
          person2 ← getitem (persons t) j;
          mret (variable, person1, person2))
    (possible_matches t).

(** [self.variables[possible_match].varValue > 0]; comparing [None] with
    a number raises [TypeError]. *)
Definition varValue_positive t pm : result bool :=
  match variables t !! pm with
  | None => Raise KeyError
  | Some v =>
      match varValue v with
      | None => Raise TypeError
      | Some z => Ok (bool_decide (0 < z)%Z)
      end
  end.

Definition get_true_possible_matches t : result (list tuple) :=
  filterM (varValue_positive t) (possible_matches t).

Definition get_true_variables t : result (list tuple) :=
  pms ← get_true_possible_matches t;
  mapM (getvar (variables t)) pms.

Definition get_matches t : result (list (Person * Person)) :=
  pms ← get_true_possible_matches t;
  mapM (λ possible_match,
          i ← getitem possible_match 0;
          person1 ← getitem (persons t) i;
          j ← getitem possible_match 1;
          person2 ← getitem (persons t) j;
          mret (person1, person2))
    pms.
End MatchTracker.

(** ** [MatchMaker] *)

Record MatchMaker (Person : Type) : Type := mkMatchMaker {
  mm_persons : list Person;
  match_tracker : MatchTracker Person;
  prob : LpProblem
}.
Arguments mkMatchMaker {Person} _ _ _.
Arguments mm_persons {Person} _.
Arguments match_tracker {Person} _.
Arguments prob {Person} _.

(** What a solved run prints and logs. *)
Record Report : Type := mkReport {
  r_status : string;
  r_mean_score : float;
  r_scores : list float;
  r_days : list (string * list (nat * nat));
  r_unmatched : list nat;
  r_genders : list (string * Z);
  r_num_matches : Z;
  r_not_matched : Z
}.

(** What the solver hands back: a status, and a value for the variables it
    assigned. *)
Record SolverOutput : Type := mkSolverOutput {
  out_status : LpStatus;
  out_values : gmap tuple Z
}.

(** The solver writes the values into the variable objects. *)
Definition write_values (sol : gmap tuple Z) (d : store) : store :=
  map_imap (λ k v, Some (mkLpVariable (lowBound v) (upBound v) (cat v) (sol !! k))) d.

Section MatchMaker.
Context {Person Row : Type}.

(** The participants: [person.py] is not among the sources, so [Person],
    [Person.build] and the methods and fields used here are parameters. *)
Variable build : Row → Person.
Variable matrix_similarity : Person → Person → float.
Variable is_pairing_preferred : Person → Person → float.
Variable is_pairable : Person → Person → Z.
(** [person1 != person2] *)
Variable Person_ne : Person → Person → bool.
Variable day_choice : Person → string.
(** [person.gender.value.title()] *)
Variable gender_title : Person → string.

Implicit Types (mm : MatchMaker Person).

Definition _initialise_participants (rows : list Row) : list Person :=
  foldl (λ persons row, persons ++ [build row]) [] rows.

Definition _create_match_variables (persons : list Person) : MatchTracker Person :=
  MatchTracker_init persons.

(** The score of a pair, as the scoring loop of [_initialse_problem]
    computes it. *)
Definition score_of (person1 person2 : Person) : float :=
  let reward := matrix_similarity person1 person2 in
  let penalty := (1 - is_pairing_preferred person1 person2)%float in
  (reward - 0.1 * penalty)%float.

Definition _initialse_problem (persons : list Person) (t : MatchTracker Person)
    : result LpProblem :=
  let prob := LpProblem_new "Date_Pairing_Problem" LpMaximize in
  vps ← get_variables_to_people t;
  let score_vars :=
    foldl (λ score_vars '(variable, person1, person2),
             score_vars ++ [var_mul variable (score_of person1 person2)])
      [] vps in
  let prob := iadd_objective prob (lpSum_scores score_vars) in
  prob ← foldlM (λ prob '(idx, _),
                   variables_for_person ← get_variables_for_person t idx;
                   mret (iadd_constraint prob
                           (mkLpConstraint (lpSum_vars variables_for_person)
                              LpConstraintEQ 1%Q)))
           prob (enumerate persons);
  vps ← get_variables_to_people t;
  let prob :=
    foldl (λ prob '(variable, person1, person2),
             iadd_constraint prob
               (mkLpConstraint (var_expr variable) LpConstraintLE
                  (inject_Z (is_pairable person1 person2))))
      prob vps in
  mret (writeLP prob).

(** [MatchMaker.__init__]; what it prints, logs and writes to the LP file is
    left out. *)
Definition MatchMaker_init (rows : list Row) : result (MatchMaker Person) :=
  let persons := _initialise_participants rows in
  let t := _create_match_variables persons in
  prob ← _initialse_problem persons t;
  mret (mkMatchMaker persons t prob).

(** [self.prob.solve(...)]: between [fixObjective] and [restoreObjective]
    the solver sets the status and writes the values into the variables of
    the problem, [__dummy] left out. *)
Definition solver_run mm (out : SolverOutput) : MatchMaker Person :=
  let t := match_tracker mm in
  let p := fix_restore (prob mm) in
  mkMatchMaker (mm_persons mm)
    (mkMatchTracker (persons t) (possible_matches t)
       (write_values (out_values out) (variables t)))
    (mkLpProblem (prob_name p) (sense p) (objective p) (constraints p)
       (out_status out) (dummyVar p)).

(** [min(g1, g2)] and [max(g1, g2)] on strings. *)
Definition str_min (a b : string) : string := if String.ltb b a then b else a.
Definition str_max (a b : string) : string := if String.ltb a b then b else a.

Definition log_stats mm : result (list (string * Z)) :=
  ms ← get_matches (match_tracker mm);
  mret (foldl (λ num '(person1, person2),
                 if Person_ne person1 person2 then
                   let g1 := gender_title person1 in
                   let g2 := gender_title person2 in
                   let '(g1, g2) := (str_min g1 g2, str_max g1 g2) in
                   defaultdict_update 0%Z (λ n, n + 1)%Z
                     (g1 +:+ "/" +:+ g2) num
                 else num)
          [] ms).

Definition get_day_or_either (day1 day2 : string) : string :=
  if negb (String.eqb day1 "Either") then day1 else day2.

Definition log_matches mm
    : result (list (string * list (nat * nat)) * list nat * list (string * Z)) :=
  pms ← get_true_possible_matches (match_tracker mm);
  '(day_dict, unmatched) ←
    foldlM (λ '(day_dict, unmatched) possible_match,
              '(idx1, idx2) ← unpack2 possible_match;
              if Nat.eqb idx1 idx2 then mret (day_dict, unmatched ++ [idx1])
              else
                p1 ← getitem (mm_persons mm) idx1;
                p2 ← getitem (mm_persons mm) idx2;
                mret (defaultdict_update [] (λ l, l ++ [(idx1, idx2)])
                        (get_day_or_either (day_choice p1) (day_choice p2))
                        day_dict,
                      unmatched))
      ([], []) pms;
  num ← log_stats mm;
  mret (day_dict, unmatched, num).

(** [value(self.prob.objective)] *)
Definition objective_value mm : result (option float) :=
  match objective (prob mm) with
  | None => Raise AttributeError
  | Some e =>
      Ok (value_from (variables (match_tracker mm)) (dummyVar (prob mm))
            (o_constant e) (o_terms e))
  end.

(** [2*value(self.prob.objective) / len(self.persons)]: the product is
    computed first, and [2*None] raises [TypeError]. *)
Definition mean_score mm : result float :=
  v ← objective_value mm;
  match v with
  | None => Raise TypeError
  | Some x =>
      if Nat.eqb (length (mm_persons mm)) 0 then Raise ZeroDivisionError
      else Ok (2 * x / Z2float (Z.of_nat (length (mm_persons mm))))%float
  end.

(** [MatchMaker.solve]; the scores are reported unrounded. *)
Definition solve mm (out : SolverOutput) : result Report :=
  let mm := solver_run mm out in
  let status_line := LpStatus_name (status (prob mm)) in
  mean ← mean_score mm;
  ms ← get_matches (match_tracker mm);
  let '(scores, num_matches) :=
    foldl (λ '(scores, num_matches) '(person1, person2),
             (scores ++ [matrix_similarity person1 person2],
              if Person_ne person1 person2 then (num_matches + 2)%Z
              else num_matches))
      ([], 0%Z) ms in
  '(day_dict, unmatched, num) ← log_matches mm;
  mret (mkReport status_line mean scores day_dict unmatched num num_matches
          (Z.of_nat (length (mm_persons mm)) - num_matches)%Z).
End MatchMaker.

(** ** Feasible assignments

    The contract of the solver: in a solved run every variable holds a value
    within its bounds and every constraint of the problem holds. *)

Definition cmp_sense (s : LpConstraintSense) (a b : Q) : bool :=
  match s with
  | LpConstraintLE => Qle_bool a b
  | LpConstraintEQ => Qeq_bool a b
  | LpConstraintGE => Qle_bool b a
  end.

Definition constraint_holds (d : store) (c : LpConstraint) : bool :=
  match expr_value d (c_expr c) with
  | Some q => cmp_sense (c_sense c) q (c_rhs c)
  | None => false
  end.

Definition var_in_domain (v : LpVariable) : bool :=
  match varValue v with
  | Some z => bool_decide (lowBound v ≤ z ≤ upBound v)%Z
  | None => false
  end.

Definition feasible (p : LpProblem) (d : store) : bool :=
  forallb (λ kv, var_in_domain kv.2) (map_to_list d)
  && forallb (constraint_holds d) (constraints p).

(** A solved run: the values the solver wrote are feasible for the problem. *)
Definition solved_run {Person} (mm : MatchMaker Person) (out : SolverOutput) : Prop :=
  feasible (prob mm) (write_values (out_values out) (variables (match_tracker mm))) = true.

(** * The vocabulary of the properties *)

(** The persons a candidate pair names. *)
Definition pair_people {Person} (ps : list Person) (pm : tuple)
    (p1 p2 : Person) : Prop :=
  ∃ i j, pm = [i; j] ∧ ps !! i = Some p1 ∧ ps !! j = Some p2.

(** Coverage: the variables touching [idx] sum to one. *)
Definition coverage_constraint (pms : list tuple) (idx : nat) : LpConstraint :=
  mkLpConstraint (map (λ pm, (pm, 1%Q)) (filter (λ pm, idx ∈ pm) pms))
    LpConstraintEQ 1%Q.

(** Eligibility: a variable is at most the pairability of its pair. *)
Definition eligibility_constraint (pm : tuple) (pairable : Z) : LpConstraint :=
  mkLpConstraint [(pm, 1%Q)] LpConstraintLE (inject_Z pairable).

(** The value the solver gave a variable (0 where it gave none). *)
Definition value_of (sol : gmap tuple Z) (pm : tuple) : Z := default 0%Z (sol !! pm).

(** The candidate pairs a solution selects. *)
Definition selected (sol : gmap tuple Z) (pms : list tuple) : list tuple :=
  filter (λ pm, (0 < value_of sol pm)%Z) pms.

Definition Zsum (l : list Z) : Z := foldr Z.add 0%Z l.

(** The score of a candidate pair of the roster. *)
Definition pair_score {Person} (score : Person → Person → float)
    (ps : list Person) (pm : tuple) : option float :=
  match pm with
  | [i; j] => p1 ← ps !! i; p2 ← ps !! j; Some (score p1 p2)
  | _ => None
  end.

(** The term of a variable with its two persons, and the terms of the
    candidate pairs of a roster, in their order: a pair has a term when its
    score is not 0. *)
Definition score_term {Person} (score : Person → Person → float)
    (vp : tuple * Person * Person) : option (LpElement * float) :=
  if nonzero (score vp.1.2 vp.2)
  then Some (MatchVariable vp.1.1, score vp.1.2 vp.2) else None.
Definition score_terms {Person} (score : Person → Person → float)
    (ps : list Person) : list (LpElement * float) :=
  omap (λ pm, s ← pair_score score ps pm;
              if nonzero s then Some (MatchVariable pm, s) else None)
    (build_possible_matches (length ps)).

(** The terms of the objective of a roster, and the [__dummy] variable of
    its problem: without a pair that has a score, the objective holds
    [0*__dummy] and the problem has made the variable. *)
Definition objective_terms {Person} (score : Person → Person → float)
    (ps : list Person) : list (LpElement * float) :=
  match score_terms score ps with
  | [] => [(DummyVariable, 0%float)]
  | ts => ts
  end.
Definition dummy_of {Person} (score : Person → Person → float)
    (ps : list Person) : option LpVariable :=
  match score_terms score ps with
  | [] => Some (mkLpVariable 0 0 LpContinuous None)
  | _ => None
  end.

(** The constant that the sum of the scored variables ends with. *)
Definition score_constant {Person} (score : Person → Person → float)
    (vps : list (tuple * Person * Person)) : float :=
  foldl (λ c vp, (c + o_constant (var_mul vp.1.1 (score vp.1.2 vp.2)))%float)
    0%float vps.

(** Some candidate pair of the roster has a score that is not 0. *)
Definition scored {Person} (score : Person → Person → float)
    (ps : list Person) : Prop :=
  ∃ pm p1 p2,
    pm ∈ build_possible_matches (length ps)
    ∧ pair_people ps pm p1 p2
    ∧ nonzero (score p1 p2) = true.

(** The value the solver gave a variable of the objective; it gives
    [__dummy] none. *)
Definition term_value (sol : gmap tuple Z) (v : LpElement) : Z :=
  match v with
  | MatchVariable pm => value_of sol pm
  | DummyVariable => 0%Z
  end.

(** A selected candidate pair with the persons it names. *)
Definition entry_of {Person} (ps : list Person) (pm : tuple)
    (e : nat * nat * Person * Person) : Prop :=
  let '(i, j, p1, p2) := e in
  pm = [i; j] ∧ ps !! i = Some p1 ∧ ps !! j = Some p2.

(** The number of items a [defaultdict] of lists holds, and the total of a
    [defaultdict] of counts. *)
Definition group_total {V} (d : list (string * list V)) : nat :=
  sum_list (map (λ kv, length kv.2) d).

(** A report with another status line. *)
Definition with_status (s : string) (r : Report) : Report :=
  mkReport s (r_mean_score r) (r_scores r) (r_days r) (r_unmatched r)
    (r_genders r) (r_num_matches r) (r_not_matched r).

Section Steps.
Context {Person : Type}.
Variable matrix_similarity : Person → Person → float.
Variable Person_ne : Person → Person → bool.
Variable day_choice : Person → string.
Variable gender_title : Person → string.

Implicit Types (e : nat * nat * Person * Person)
  (es : list (nat * nat * Person * Person)) (ms : list (Person * Person)).

(** One round of the loop of [log_matches], of [log_stats] and of [solve],
    on a selected pair whose persons are known. *)
Definition day_step (acc : list (string * list (nat * nat)) * list nat) e
    : list (string * list (nat * nat)) * list nat :=
  let '(day_dict, unmatched) := acc in
  let '(idx1, idx2, p1, p2) := e in
  if Nat.eqb idx1 idx2 then (day_dict, unmatched ++ [idx1])
  else (defaultdict_update [] (λ l, l ++ [(idx1, idx2)])
          (get_day_or_either (day_choice p1) (day_choice p2)) day_dict,
        unmatched).

Definition gender_step (num : list (string * Z)) (m : Person * Person)
    : list (string * Z) :=
  let '(person1, person2) := m in
  if Person_ne person1 person2 then
    let g1 := gender_title person1 in
    let g2 := gender_title person2 in
    let '(g1, g2) := (str_min g1 g2, str_max g1 g2) in
    defaultdict_update 0%Z (λ n, n + 1)%Z (g1 +:+ "/" +:+ g2) num
  else num.

Definition count_step : list float * Z → Person * Person → list float * Z :=
  λ '(scores, num_matches) '(person1, person2),
    (scores ++ [matrix_similarity person1 person2],
     if Person_ne person1 person2 then (num_matches + 2)%Z else num_matches).

(** The selected pairs that are real matches: by person, as [solve] and
    [log_stats] test it, and by index, as [log_matches] tests it. *)
Definition matches_by_person ms : list (Person * Person) :=
  filter (λ m, Person_ne m.1 m.2 = true) ms.
Definition matches_by_index es : list (nat * nat * Person * Person) :=
  filter (λ e, e.1.1.1 ≠ e.1.1.2) es.

Definition entry_people e : Person * Person := (e.1.2, e.2).
End Steps.

(** * A small roster, to run the model on *)

Record participant : Type := mkParticipant {
  p_name : string;
  p_day : string;
  p_gender : string
}.

Definition demo_similarity (a b : participant) : float :=
  if String.eqb (p_name a) (p_name b) then 0%float else 0.5%float.
Definition demo_preferred (a b : participant) : float := 1%float.
(** Pairable with oneself, and with a participant of another gender. *)
Definition demo_pairable (a b : participant) : Z :=
  if String.eqb (p_name a) (p_name b) then 1%Z
  else if String.eqb (p_gender a) (p_gender b) then 0%Z else 1%Z.
Definition demo_ne (a b : participant) : bool :=
  negb (String.eqb (p_name a) (p_name b)).

Definition demo_rows : list participant :=
  [mkParticipant "ann" "Mon" "Woman";
   mkParticipant "bob" "Either" "Man";
   mkParticipant "cy" "Tue" "Man"].

Definition demo_init (rows : list participant) : result (MatchMaker participant) :=
  MatchMaker_init id demo_similarity demo_preferred demo_pairable rows.
Definition demo_solve (mm : MatchMaker participant) (out : SolverOutput)
    : result Report :=
  solve demo_similarity demo_ne p_day p_gender mm out.

(** Ann with Bob, Cy alone. *)
Definition demo_values : gmap tuple Z :=
  list_to_map [([0; 1], 1%Z); ([0; 2], 0%Z); ([1; 2], 0%Z);
               ([0; 0], 0%Z); ([1; 1], 0%Z); ([2; 2], 1%Z)].
(** Ann with Bob and with Cy at once. *)
Definition demo_values_twice : gmap tuple Z :=
  list_to_map [([0; 1], 1%Z); ([0; 2], 1%Z); ([1; 2], 0%Z);
               ([0; 0], 0%Z); ([1; 1], 0%Z); ([2; 2], 0%Z)].
(** The value of one variable is missing. *)
Definition demo_values_partial : gmap tuple Z :=
  list_to_map [([0; 1], 1%Z); ([0; 2], 0%Z); ([1; 2], 0%Z);
               ([0; 0], 0%Z); ([1; 1], 0%Z)].

Definition demo_out : SolverOutput := mkSolverOutput LpStatusOptimal demo_values.

(** Settles a goal about the model [mm] of [H : _ = Ok mm] on the computed
    model. *)
Ltac by_model H tac :=
  let H' := fresh in
  pose proof H as H'; vm_compute in H'; injection H' as <-; tac.

(** Every candidate pair of a computed model has a value in a concrete map. *)
Ltac all_assigned :=
  let pm := fresh "pm" in
  let Hpm := fresh "Hpm" in
  intros pm Hpm;
  repeat (apply elem_of_cons in Hpm as [->|Hpm]; [vm_compute; eauto|]);
  by apply elem_of_nil in Hpm.

(** The assignment that leaves everyone unmatched: 1 on the self-pairs, 0 on
    the other candidate pairs. *)
Definition self_value (pm : tuple) : Z :=
  match pm with
  | [i; j] => if Nat.eqb i j then 1%Z else 0%Z
  | _ => 0%Z
  end.
Definition all_unmatched (n : nat) : gmap tuple Z :=
  list_to_map (map (λ pm, (pm, self_value pm)) (build_possible_matches n)).

(** A pair is listed in a day breakdown. *)
Definition listed (days : list (string * list (nat * nat))) (i j : nat) : Prop :=
  ∃ k grp, (k, grp) ∈ days ∧ (i, j) ∈ grp.

(** [d.get(k)] on a [defaultdict] in insertion order. *)
Fixpoint dd_lookup {V} (k : string) (d : list (string * V)) : option V :=
  match d with
  | [] => None
  | (k', v) :: d' => if String.eqb k' k then Some v else dd_lookup k d'
  end.

(** The key of the gender breakdown for two titles. *)
Definition gender_key (g1 g2 : string) : string :=
  str_min g1 g2 +:+ "/" +:+ str_max g1 g2.

(** A candidate pair of two different indices, and the day it is listed
    under. *)
Definition is_match (pm : tuple) : bool :=
  match pm with
  | [i; j] => negb (Nat.eqb i j)
  | _ => false
  end.
Definition day_of {Person} (day_choice : Person → string) (ps : list Person)
    (pm : tuple) : option string :=
  match pm with
  | [i; j] =>
      p1 ← ps !! i;
      p2 ← ps !! j;
      Some (get_day_or_either (day_choice p1) (day_choice p2))
  | _ => None
  end.

(** The bucket of a selected pair in the day breakdown and in the gender
    breakdown. *)
Definition entry_day {Person} (day_choice : Person → string)
    (e : nat * nat * Person * Person) : string :=
  get_day_or_either (day_choice e.1.2) (day_choice e.2).
Definition match_key {Person} (gender_title : Person → string)
    (m : Person * Person) : string :=
  gender_key (gender_title m.1) (gender_title m.2).

(** An eligibility rule under which nobody is pairable with anybody. *)
Definition never_pairable (a b : participant) : Z := 0%Z.

(** An eligibility rule under which Cy is pairable with nobody, Cy
    included, and the values of a solver that gave up on it: Ann with Bob,
    Cy in no pair. *)
Definition cy_unpairable (a b : participant) : Z :=
  if String.eqb (p_name a) "cy" || String.eqb (p_name b) "cy" then 0%Z
  else demo_pairable a b.
Definition demo_values_no_cy : gmap tuple Z :=
  list_to_map [([0; 1], 1%Z); ([0; 2], 0%Z); ([1; 2], 0%Z);
               ([0; 0], 0%Z); ([1; 1], 0%Z); ([2; 2], 0%Z)].


(** A roster of one, and the one value of its solved run. *)
Definition solo_rows : list participant := [mkParticipant "ann" "Mon" "Woman"].
Definition solo_out : SolverOutput :=
  mkSolverOutput LpStatusOptimal (list_to_map [([0; 0], 1%Z)]).

(** * Properties *)

(** The candidate pairs of a roster of three. *)
Example possible_matches_3 :
  build_possible_matches 3 = [[0; 1]; [0; 2]; [1; 2]; [0; 0]; [1; 1]; [2; 2]].
Proof. reflexivity. Qed.

(** ** The candidate-pair space *)

Lemma combination_0 {A} (l : list A) : combination l 0 = [[]].
Proof. by destruct l. Qed.

Lemma combination_1 {A} (l : list A) : combination l 1 = map (λ x, [x]) l.
Proof.
  induction l as [|x xs IH]; [done|].
  cbn [combination]. by rewrite combination_0, IH.
Qed.

Lemma elem_of_combination_seq_2 (a n : nat) (c : tuple) :
  c ∈ combination (seq a n) 2 ↔ ∃ i j, c = [i; j] ∧ a ≤ i ∧ i < j ∧ j < a + n.
Proof.
  revert a. induction n as [|n IH]; intros a.
  - cbn. split; [by intros ?%elem_of_nil|]. intros (i & j & _ & ?). lia.
  - cbn [seq combination]. rewrite elem_of_app, combination_1, IH.
    rewrite <- list_fmap_compose, list_elem_of_fmap. split.
    + intros [(j & -> & Hj%elem_of_seq)|(i & j & -> & ?)].
      * exists a, j. cbn. split; [done|lia].
      * exists i, j. split; [done|lia].
    + intros (i & j & -> & Hi & Hij & Hj).
      destruct (decide (i = a)) as [->|Hne].
      * left. exists j. split; [done|]. apply elem_of_seq. lia.
      * right. exists i, j. split; [done|lia].
Qed.

Lemma NoDup_combination_seq_2 (a n : nat) : NoDup (combination (seq a n) 2).
Proof.
  revert a. induction n as [|n IH]; intros a; cbn [seq combination].
  - constructor.
  - rewrite combination_1, <- list_fmap_compose. apply NoDup_app. split_and!.
    + apply NoDup_fmap_2; [|apply NoDup_seq]. intros x y ?. by simplify_eq/=.
    + intros c (j & -> & _)%list_elem_of_fmap (i & j' & ? & ? & _)%elem_of_combination_seq_2.
      simplify_eq/=. lia.
    + apply IH.
Qed.

Lemma length_combination_2 {A} (l : list A) :
  2 * length (combination l 2) = length l * (length l - 1).
Proof.
  induction l as [|x xs IH]; [done|].
  cbn [combination]. rewrite length_app, combination_1, !length_map. cbn [length].
  destruct xs; cbn [length] in *; nia.
Qed.

Lemma filter_keep_all {A} (P : A → Prop) `{!∀ x, Decision (P x)} (l : list A) :
  Forall P l → filter P l = l.
Proof.
  induction 1 as [|x l Hx _ IH]; [done|]. by rewrite filter_cons_True, IH.
Qed.

Lemma filter_drop_all {A} (P : A → Prop) `{!∀ x, Decision (P x)} (l : list A) :
  Forall (λ x, ¬ P x) l → filter P l = [].
Proof.
  induction 1 as [|x l Hx _ IH]; [done|]. by rewrite filter_cons_False.
Qed.

Lemma len_set_pair (i j : nat) : i ≠ j → len_set [i; j] = 2.
Proof.
  intros Hij. unfold len_set. cbn.
  case_decide as Hi; [by apply list_elem_of_singleton in Hi|].
  case_decide as Hj; [by apply elem_of_nil in Hj|done].
Qed.

(** The filter of [MatchTracker.__init__] drops the one-item combinations
    and keeps every two-item one. *)
Lemma build_possible_matches_eq (n : nat) :
  build_possible_matches n
  = combination (range n) 2 ++ map (λ idx, [idx; idx]) (range n).
Proof.
  unfold build_possible_matches, allcombinations, range. f_equal.
  cbn [seq map concat]. rewrite app_nil_r, filter_app, combination_1.
  rewrite filter_drop_all, filter_keep_all; [done| |].
  - apply Forall_forall. intros c (i & j & -> & ?)%elem_of_combination_seq_2.
    apply len_set_pair. lia.
  - apply Forall_forall. by intros c (x & -> & _)%list_elem_of_fmap.
Qed.

Lemma elem_of_build_possible_matches (n : nat) (pm : tuple) :
  pm ∈ build_possible_matches n
  ↔ ∃ i j, pm = [i; j] ∧ ((i < j ∧ j < n) ∨ (i = j ∧ i < n)).
Proof.
  rewrite build_possible_matches_eq. unfold range.
  rewrite elem_of_app, elem_of_combination_seq_2, list_elem_of_fmap. split.
  - intros [(i & j & -> & ?)|(i & -> & Hi%elem_of_seq)].
    + exists i, j. split; [done|]. left. lia.
    + exists i, i. split; [done|]. right. lia.
  - intros (i & j & -> & [[??]|[-> ?]]).
    + left. exists i, j. split; [done|lia].
    + right. exists j. split; [done|]. apply elem_of_seq. lia.
Qed.

Lemma NoDup_build_possible_matches (n : nat) : NoDup (build_possible_matches n).
Proof.
  rewrite build_possible_matches_eq. unfold range. apply NoDup_app. split_and!.
  - apply NoDup_combination_seq_2.
  - intros c (i & j & -> & ?)%elem_of_combination_seq_2 (k & ? & _)%list_elem_of_fmap.
    simplify_eq. lia.
  - apply NoDup_fmap_2; [|apply NoDup_seq]. intros x y ?. by simplify_eq.
Qed.

Lemma length_build_possible_matches (n : nat) :
  length (build_possible_matches n) = n * (n + 1) / 2.
Proof.
  rewrite build_possible_matches_eq, length_app, length_map.
  pose proof (length_combination_2 (range n)) as H.
  unfold range in *. rewrite length_seq in *.
  apply Nat.div_unique_exact; [done|]. destruct n; nia.
Qed.

(** The store built by [LpVariable.dicts] holds a fresh variable under each
    index and nothing else. *)
Lemma lookup_LpVariable_dicts (l : list tuple) (lb ub : Z) (c : LpCategory)
    (k : tuple) :
  LpVariable_dicts l lb ub c !! k
  = if decide (k ∈ l) then Some (mkLpVariable lb ub c None) else None.
Proof.
  unfold LpVariable_dicts.
  assert (∀ d : store,
    foldl (λ d i, <[i := mkLpVariable lb ub c None]> d) d l !! k
    = if decide (k ∈ l) then Some (mkLpVariable lb ub c None) else d !! k) as H.
  { induction l as [|x l IH]; intros d; cbn [foldl].
    - rewrite decide_False; [done|apply not_elem_of_nil].
    - rewrite IH. destruct (decide (k ∈ l)) as [Hin|Hnin].
      + rewrite decide_True; [done|by right].
      + destruct (decide (x = k)) as [->|Hne].
        * rewrite decide_True by left. apply lookup_insert_eq.
        * rewrite decide_False, lookup_insert_ne; [done..|].
          intros [?|?]%elem_of_cons; congruence. }
  rewrite H. by case_decide.
Qed.

(** ** Comprehensions and loops that do not raise *)

Lemma mapM_cons {A B} (f : A → result B) (x : A) (l : list A) :
  mapM f (x :: l) = y ← f x; ys ← mapM f l; mret (y :: ys).
Proof. done. Qed.

Lemma mapM_Ok_Forall2 {A B} (f : A → result B) (l : list A) (l' : list B) :
  Forall2 (λ x y, f x = Ok y) l l' → mapM f l = Ok l'.
Proof.
  induction 1 as [|x y l l' Hxy _ IH]; [done|].
  cbn. rewrite Hxy. cbn. rewrite IH. done.
Qed.

Lemma mapM_Ok_inv {A B} (f : A → result B) (l : list A) (l' : list B) :
  mapM f l = Ok l' → Forall2 (λ x y, f x = Ok y) l l'.
Proof.
  revert l'. induction l as [|x l IH]; intros l' H; cbn in H.
  - injection H as <-. constructor.
  - destruct (f x) as [y|e] eqn:Hx; [|done]. cbn in H.
    destruct (mapM f l) as [ys|e]; [|done]. cbn in H.
    injection H as <-. constructor; [done|by apply IH].
Qed.

Lemma mapM_Ok_exists {A B} (f : A → result B) (R : A → B → Prop) (l : list A) :
  (∀ x, x ∈ l → ∃ y, f x = Ok y ∧ R x y) →
  ∃ l', mapM f l = Ok l' ∧ Forall2 R l l'.
Proof.
  induction l as [|x l IH]; intros H.
  - exists []. split; [done|constructor].
  - destruct (H x) as (y & Hy & HR); [by left|].
    destruct IH as (l' & Hl' & HF); [intros; apply H; by right|].
    exists (y :: l'). split; [|by constructor].
    by rewrite mapM_cons, Hy, Hl'.
Qed.

Lemma mapM_Ok_map {A B} (f : A → result B) (g : A → B) (l : list A) :
  (∀ x, x ∈ l → f x = Ok (g x)) → mapM f l = Ok (map g l).
Proof.
  intros H. apply mapM_Ok_Forall2, Forall2_fmap_r, Forall_Forall2_diag.
  by apply Forall_forall.
Qed.

Lemma filterM_Ok_filter {A} (c : A → result bool) (P : A → Prop)
    `{!∀ x, Decision (P x)} (l : list A) :
  (∀ x, x ∈ l → c x = Ok (bool_decide (P x))) → filterM c l = Ok (filter P l).
Proof.
  induction l as [|x l IH]; intros Hall; [done|].
  rewrite filter_cons. cbn [filterM].
  rewrite (Hall x) by left. cbn. rewrite IH by (intros; apply Hall; by right).
  cbn. by case_decide; [rewrite bool_decide_eq_true_2|rewrite bool_decide_eq_false_2].
Qed.

Lemma filterM_Raise {A} (c : A → result bool) (e : exn) (l : list A) :
  (∀ x, x ∈ l → c x = Raise e ∨ ∃ b, c x = Ok b) →
  (∃ x, x ∈ l ∧ c x = Raise e) →
  filterM c l = Raise e.
Proof.
  induction l as [|x l IH]; intros Hall (y & Hy & Hraise).
  - by apply elem_of_nil in Hy.
  - cbn. destruct (Hall x) as [->|[b Hb]]; [by left|done|].
    rewrite Hb. cbn. rewrite IH; [done| |].
    + intros z Hz. apply Hall. by right.
    + apply elem_of_cons in Hy as [->|Hy]; [congruence|eauto].
Qed.

Lemma foldlM_Ok_foldl {A S} (f : S → A → result S) (g : S → A → S) (s : S)
    (l : list A) :
  (∀ s x, x ∈ l → f s x = Ok (g s x)) → foldlM f s l = Ok (foldl g s l).
Proof.
  revert s. induction l as [|x l IH]; intros s H; [done|].
  cbn. rewrite (H s x) by left. cbn. apply IH. intros; apply H; by right.
Qed.

Lemma mapM_getvar_Ok (d : store) (l : list tuple) :
  (∀ k, k ∈ l → is_Some (d !! k)) → mapM (getvar d) l = Ok l.
Proof.
  intros H. rewrite <- (list_fmap_id l) at 2. apply mapM_Ok_map.
  intros k [v Hv]%H. unfold getvar. by rewrite Hv.
Qed.

Lemma _initialise_participants_eq {Person Row} (build : Row → Person)
    (rows : list Row) :
  _initialise_participants build rows = map build rows.
Proof.
  unfold _initialise_participants.
  assert (∀ acc, foldl (λ persons row, persons ++ [build row]) acc rows
                 = acc ++ map build rows) as H.
  { induction rows as [|r rows IH]; intros acc; cbn.
    - by rewrite app_nil_r.
    - by rewrite IH, <- app_assoc. }
  apply H.
Qed.

Lemma enumerate_indices {A} (l : list A) :
  (enumerate l).*1 = seq 0 (length l).
Proof.
  unfold enumerate. rewrite fmap_imap.
  rewrite <- (list_fmap_id (seq 0 (length l))), <- (imap_seq_0 l id).
  by apply imap_ext.
Qed.

Lemma foldlM_fmap {A B S} (f : S → B → result S) (h : A → B) (s : S)
    (l : list A) :
  foldlM (λ s x, f s (h x)) s l = foldlM f s (h <$> l).
Proof.
  revert s. induction l as [|x l IH]; intros s; [done|].
  cbn. destruct (f s (h x)); cbn; [apply IH|done].
Qed.

(** ** The model that [MatchMaker.__init__] builds *)

Lemma foldl_snoc_map {A B} (h : A → B) (acc : list B) (l : list A) :
  foldl (λ acc x, acc ++ [h x]) acc l = acc ++ map h l.
Proof.
  revert acc. induction l as [|x l IH]; intros acc; cbn.
  - by rewrite app_nil_r.
  - by rewrite IH, <- app_assoc.
Qed.

Lemma foldl_ext {A B} (f g : A → B → A) (a : A) (l : list B) :
  (∀ a x, f a x = g a x) → foldl f a l = foldl g a l.
Proof.
  intros H. revert a. induction l as [|x l IH]; intros a; [done|].
  cbn. by rewrite H, IH.
Qed.

Lemma concat_map_singleton {A B} (h : A → B) (l : list A) :
  concat (map (λ x, [h x]) l) = map h l.
Proof. induction l as [|x l IH]; [done|]. cbn. by rewrite IH. Qed.

Lemma foldl_iadd_constraint (p : LpProblem) (cs : list LpConstraint) :
  foldl iadd_constraint p cs
  = mkLpProblem (prob_name p) (sense p) (objective p) (constraints p ++ cs)
      (status p) (dummyVar p).
Proof.
  revert p. induction cs as [|c cs IH]; intros p; cbn [foldl].
  - rewrite app_nil_r. by destruct p.
  - rewrite IH. cbn. by rewrite <- app_assoc.
Qed.

(** ** The objective that [_initialse_problem] builds *)

(** A key that the expression does not hold is added at its end. *)
Lemma addterm_fresh (key : LpElement) (value : float)
    (e : list (LpElement * float)) :
  key ∉ e.*1 → addterm key value e = e ++ [(key, value)].
Proof.
  induction e as [|[k y] e IH]; intros Hnin; [done|].
  cbn [addterm]. cbn in Hnin. apply not_elem_of_cons in Hnin as [Hne Hnin].
  rewrite decide_False by done. by rewrite IH.
Qed.

Lemma addInPlace_var_mul (self : LpObjective) (v : tuple) (c : float) :
  MatchVariable v ∉ (o_terms self).*1 →
  addInPlace self (var_mul v c)
  = mkLpObjective
      (o_terms self
       ++ if nonzero c then [(MatchVariable v, c)] else [])
      (o_constant self + o_constant (var_mul v c))%float.
Proof.
  intros Hnin. unfold addInPlace, var_mul.
  destruct (nonzero c); cbn [o_terms o_constant foldl].
  - by rewrite addterm_fresh.
  - by rewrite app_nil_r.
Qed.

Lemma omap_cons {A B} (f : A → option B) (x : A) (l : list A) :
  omap f (x :: l) = match f x with Some y => y :: omap f l | None => omap f l end.
Proof. done. Qed.

Lemma foldl_addInPlace_var_mul {Person} (score : Person → Person → float)
    (vps : list (tuple * Person * Person)) (acc : LpObjective) :
  NoDup vps.*1.*1 →
  (∀ k, MatchVariable k ∈ (o_terms acc).*1 → k ∉ vps.*1.*1) →
  foldl addInPlace acc (map (λ vp, var_mul vp.1.1 (score vp.1.2 vp.2)) vps)
  = mkLpObjective (o_terms acc ++ omap (score_term score) vps)
      (foldl (λ c vp, (c + o_constant (var_mul vp.1.1 (score vp.1.2 vp.2)))%float)
         (o_constant acc) vps).
Proof.
  revert acc. induction vps as [|[[v p1] p2] vps IH]; intros acc Hnd Hacc.
  - cbn. rewrite app_nil_r. by destruct acc.
  - cbn in Hnd. apply NoDup_cons in Hnd as [Hv Hnd].
    cbn [map foldl fst snd]. rewrite addInPlace_var_mul.
    2:{ intros Hin. apply (Hacc _ Hin). by left. }
    rewrite IH; [|done|].
    + cbn [o_terms o_constant]. rewrite omap_cons. unfold score_term at 2.
      cbn [fst snd].
      destruct (nonzero (score p1 p2)); [by rewrite <- app_assoc|].
      by rewrite app_nil_r.
    + cbn [o_terms o_constant]. intros k Hw Hk.
      rewrite fmap_app in Hw. apply elem_of_app in Hw as [Hw|Hw].
      * apply (Hacc _ Hw). by right.
      * destruct (nonzero (score p1 p2)); cbn in Hw.
        -- apply list_elem_of_singleton in Hw. by simplify_eq.
        -- by apply elem_of_nil in Hw.
Qed.

(** The sum of the scored variables: the terms of the pairs whose score is
    not 0, in the order of the pairs. *)
Lemma lpSum_scores_var_mul {Person} (score : Person → Person → float)
    (vps : list (tuple * Person * Person)) :
  NoDup vps.*1.*1 →
  lpSum_scores (map (λ vp, var_mul vp.1.1 (score vp.1.2 vp.2)) vps)
  = mkLpObjective (omap (score_term score) vps) (score_constant score vps).
Proof.
  intros Hnd. unfold lpSum_scores. rewrite foldl_addInPlace_var_mul; [done..|].
  by intros k ?%elem_of_nil.
Qed.

(** An objective with a term is left as it is by [fixObjective] and
    [restoreObjective]; one without terms comes out with [0*__dummy]. *)
Lemma fix_restore_terms (p : LpProblem) (e : LpObjective) :
  objective p = Some e → o_terms e ≠ [] → fix_restore p = p.
Proof.
  intros He Hne. unfold fix_restore, fixObjective, isNumericalConstant.
  rewrite He. cbn [default from_option]. unfold id.
  destruct (o_terms e) eqn:Ht; [done|].
  cbn [restoreObjective]. destruct p. cbn in He. by subst.
Qed.

Lemma fix_restore_constant (p : LpProblem) (c : float) :
  objective p = Some (mkLpObjective [] c) → dummyVar p = None →
  fix_restore p
  = mkLpProblem (prob_name p) (sense p)
      (Some (mkLpObjective [(DummyVariable, 0%float)] c)) (constraints p)
      (status p) (Some (mkLpVariable 0 0 LpContinuous None)).
Proof.
  intros He Hd. unfold fix_restore, fixObjective, get_dummyVar.
  rewrite He, Hd. reflexivity.
Qed.

Lemma pairs_keys {Person} (ps : list Person) (pms : list tuple)
    (vps : list (tuple * Person * Person)) :
  Forall2 (λ pm '(v, p1, p2), v = pm ∧ pair_people ps pm p1 p2) pms vps →
  vps.*1.*1 = pms.
Proof.
  induction 1 as [|pm [[v p1] p2] l vps [-> _] _ IH]; [done|].
  cbn. by rewrite IH.
Qed.

Lemma pair_score_people {Person} (score : Person → Person → float)
    (ps : list Person) (pm : tuple) (p1 p2 : Person) :
  pair_people ps pm p1 p2 → pair_score score ps pm = Some (score p1 p2).
Proof. intros (i & j & -> & Hi & Hj). cbn. rewrite Hi. cbn. by rewrite Hj. Qed.

Lemma score_terms_pairs {Person} (score : Person → Person → float)
    (ps : list Person) (pms : list tuple) (vps : list (tuple * Person * Person)) :
  Forall2 (λ pm '(v, p1, p2), v = pm ∧ pair_people ps pm p1 p2) pms vps →
  omap (score_term score) vps
  = omap (λ pm, s ← pair_score score ps pm;
                if nonzero s then Some (MatchVariable pm, s) else None) pms.
Proof.
  induction 1 as [|pm [[v p1] p2] l vps [-> Hpp] _ IH]; [done|].
  rewrite !omap_cons, IH, (pair_score_people _ _ _ _ _ Hpp).
  unfold score_term. cbn. by destruct (nonzero (score p1 p2)).
Qed.

Section Model.
Context {Person Row : Type}.
Variable build : Row → Person.
Variable matrix_similarity : Person → Person → float.
Variable is_pairing_preferred : Person → Person → float.
Variable is_pairable : Person → Person → Z.

Implicit Types (ps : list Person) (pm : tuple).
Local Abbreviation score := (score_of matrix_similarity is_pairing_preferred).

Lemma lookup_variables_init ps pm :
  variables (MatchTracker_init ps) !! pm
  = if decide (pm ∈ build_possible_matches (length ps))
    then Some (mkLpVariable 0 1 LpInteger None) else None.
Proof. apply lookup_LpVariable_dicts. Qed.

Lemma get_variables_for_person_init ps idx :
  get_variables_for_person (MatchTracker_init ps) idx
  = Ok (filter (λ pm, idx ∈ pm) (build_possible_matches (length ps))).
Proof.
  apply mapM_getvar_Ok. intros k [_ Hk]%list_elem_of_filter.
  rewrite lookup_variables_init, decide_True; eauto.
Qed.

Lemma get_variables_to_people_init ps :
  ∃ vps,
    get_variables_to_people (MatchTracker_init ps) = Ok vps
    ∧ Forall2 (λ pm '(v, p1, p2), v = pm ∧ pair_people ps pm p1 p2)
        (build_possible_matches (length ps)) vps.
Proof.
  apply mapM_Ok_exists.
  intros pm Hpm. cbn [possible_matches MatchTracker_init] in Hpm.
  pose proof Hpm as (i & j & -> & Hij)%elem_of_build_possible_matches.
  destruct (lookup_lt_is_Some_2 ps i) as [p1 Hp1]; [lia|].
  destruct (lookup_lt_is_Some_2 ps j) as [p2 Hp2]; [lia|].
  exists ([i; j], p1, p2). split; [|split; [done|by exists i, j]].
  unfold getvar. rewrite lookup_variables_init, decide_True by done.
  unfold getitem. cbn. rewrite Hp1. cbn. by rewrite Hp2.
Qed.

Lemma _initialse_problem_init ps :
  ∃ vps,
    Forall2 (λ pm '(v, p1, p2), v = pm ∧ pair_people ps pm p1 p2)
      (build_possible_matches (length ps)) vps
    ∧ _initialse_problem matrix_similarity is_pairing_preferred is_pairable
        ps (MatchTracker_init ps)
      = Ok (mkLpProblem "Date_Pairing_Problem" LpMaximize
              (Some (mkLpObjective (objective_terms score ps)
                       (score_constant score vps)))
              (map (coverage_constraint (build_possible_matches (length ps)))
                 (seq 0 (length ps))
               ++ map (λ '(v, p1, p2), eligibility_constraint v (is_pairable p1 p2))
                    vps)
              LpStatusNotSolved (dummy_of score ps)).
Proof.
  destruct (get_variables_to_people_init ps) as (vps & Hvps & HF).
  exists vps. split; [done|].
  unfold _initialse_problem. rewrite Hvps. cbn [mbind result_bind].
  rewrite (foldlM_Ok_foldl _
    (λ prob x, iadd_constraint prob
       (coverage_constraint (build_possible_matches (length ps)) x.1))).
  2:{ intros s [idx p] _. rewrite get_variables_for_person_init. cbn.
      unfold coverage_constraint, lpSum_vars, lpSum, var_expr.
      by rewrite concat_map_singleton. }
  cbn [mbind result_bind mret result_ret].
  rewrite <- (foldl_fmap (λ prob idx, iadd_constraint prob
    (coverage_constraint (build_possible_matches (length ps)) idx)) _ _ fst).
  rewrite enumerate_indices.
  rewrite <- (foldl_fmap iadd_constraint _ _
    (coverage_constraint (build_possible_matches (length ps)))).
  rewrite foldl_iadd_constraint. cbn [prob_name sense objective constraints status dummyVar iadd_objective LpProblem_new app].
  rewrite (foldl_ext _ (λ prob x, iadd_constraint prob
     ((λ '(v, p1, p2), eligibility_constraint v (is_pairable p1 p2)) x))).
  2:{ by intros p [[v p1] p2]. }
  rewrite <- (foldl_fmap iadd_constraint _ _
     (λ '(v, p1, p2), eligibility_constraint v (is_pairable p1 p2))).
  rewrite foldl_iadd_constraint. cbn [prob_name sense objective constraints status dummyVar].
  rewrite (foldl_ext _ (λ acc x, acc ++ [(λ vp,
     var_mul vp.1.1 (score vp.1.2 vp.2)) x])).
  2:{ by intros acc [[v p1] p2]. }
  rewrite foldl_snoc_map. cbn [app].
  rewrite lpSum_scores_var_mul
    by (rewrite (pairs_keys _ _ _ HF); apply NoDup_build_possible_matches).
  unfold writeLP, objective_terms, dummy_of, score_terms.
  rewrite <- (score_terms_pairs score ps _ vps HF).
  destruct (omap (score_term score) vps) as [|t ts] eqn:Hterms.
  - by rewrite (fix_restore_constant _ (score_constant score vps)).
  - by rewrite (fix_restore_terms _ (mkLpObjective (t :: ts) (score_constant score vps))).
Qed.
End Model.

(** ** Solved runs *)

Lemma lookup_write_values (sol : gmap tuple Z) (d : store) (k : tuple) :
  write_values sol d !! k
  = (λ v, mkLpVariable (lowBound v) (upBound v) (cat v) (sol !! k)) <$> d !! k.
Proof. unfold write_values. rewrite map_lookup_imap. by destruct (d !! k). Qed.

Lemma feasible_inv (p : LpProblem) (d : store) :
  feasible p d = true →
  (∀ k v, d !! k = Some v → var_in_domain v = true)
  ∧ (∀ c, c ∈ constraints p → constraint_holds d c = true).
Proof.
  unfold feasible. intros [Hv Hc]%andb_prop. split.
  - intros k v Hk. rewrite forallb_forall in Hv.
    apply (Hv (k, v)), list_elem_of_In. by apply elem_of_map_to_list.
  - intros c Hin. rewrite forallb_forall in Hc. by apply Hc, list_elem_of_In.
Qed.

Lemma feasible_intro (p : LpProblem) (d : store) :
  (∀ k v, d !! k = Some v → var_in_domain v = true) →
  (∀ c, c ∈ constraints p → constraint_holds d c = true) →
  feasible p d = true.
Proof.
  intros Hv Hc. unfold feasible. apply andb_true_intro. split.
  - apply forallb_forall. intros [k v] Hin%list_elem_of_In.
    apply (Hv k). by apply elem_of_map_to_list.
  - apply forallb_forall. intros c Hin%list_elem_of_In. by apply Hc.
Qed.

(** A sum of unit terms evaluates to the sum of the variables' values. *)
Lemma expr_value_from_units (d : store) (f : tuple → Z) (l : list tuple) (s : Q) :
  (∀ k, k ∈ l → d !! k ≫= varValue = Some (f k)) →
  ∃ q, expr_value_from d s (map (λ pm, (pm, 1%Q)) l) = Some q
       ∧ (q == s + inject_Z (Zsum (map f l)))%Q.
Proof.
  revert s. induction l as [|k l IH]; intros s H.
  - exists s. split; [done|]. cbn. ring.
  - cbn [map expr_value_from]. rewrite (H k) by left.
    destruct (IH (s + inject_Z (f k) * 1)%Q) as (q & Hq & Heq).
    { intros; apply H; by right. }
    exists q. split; [done|]. rewrite Heq. cbn [Zsum foldr].
    fold (Zsum (map f l)). rewrite inject_Z_plus. ring.
Qed.

Lemma expr_value_units_None (d : store) (l : list tuple) (k : tuple) (s : Q) :
  k ∈ l → d !! k ≫= varValue = None →
  expr_value_from d s (map (λ pm, (pm, 1%Q)) l) = None.
Proof.
  revert s. induction l as [|x l IH]; intros s Hin Hk.
  - by apply elem_of_nil in Hin.
  - cbn [map expr_value_from]. destruct (d !! x ≫= varValue) as [z|] eqn:Hx; [|done].
    apply IH; [|done]. apply elem_of_cons in Hin as [->|?]; [congruence|done].
Qed.

(** Zero-one values sum to the number of positive ones. *)
Lemma Zsum_zero_one {A} (f : A → Z) (l : list A) :
  (∀ x, x ∈ l → (0 ≤ f x ≤ 1)%Z) →
  Zsum (map f l) = Z.of_nat (length (filter (λ x, (0 < f x)%Z) l)).
Proof.
  induction l as [|x l IH]; intros H; [done|].
  cbn [map Zsum foldr]. fold (Zsum (map f l)).
  rewrite IH by (intros; apply H; by right).
  rewrite filter_cons. pose proof (H x ltac:(by left)).
  case_decide; cbn [length]; lia.
Qed.

Lemma filter_comm {A} (P1 P2 : A → Prop) `{!∀ x, Decision (P1 x)}
    `{!∀ x, Decision (P2 x)} (l : list A) :
  filter P1 (filter P2 l) = filter P2 (filter P1 l).
Proof.
  rewrite !list_filter_filter. apply list_filter_iff. intros x. tauto.
Qed.

Section Runs.
Context {Person Row : Type}.
Variable build : Row → Person.
Variable matrix_similarity : Person → Person → float.
Variable is_pairing_preferred : Person → Person → float.
Variable is_pairable : Person → Person → Z.

Implicit Types (ps : list Person) (pm : tuple) (sol : gmap tuple Z).

Local Abbreviation init := (MatchMaker_init build matrix_similarity
                          is_pairing_preferred is_pairable).
Local Abbreviation score := (score_of matrix_similarity is_pairing_preferred).

(** [MatchMaker.__init__] never raises, whatever the roster, and builds
    this model. *)
Lemma MatchMaker_init_Ok (rows : list Row) :
  let ps := map build rows in
  let pms := build_possible_matches (length rows) in
  ∃ vps,
    Forall2 (λ pm '(v, p1, p2), v = pm ∧ pair_people ps pm p1 p2) pms vps
    ∧ init rows
      = Ok (mkMatchMaker ps (MatchTracker_init ps)
              (mkLpProblem "Date_Pairing_Problem" LpMaximize
                 (Some (mkLpObjective (objective_terms score ps)
                          (score_constant score vps)))
                 (map (coverage_constraint pms) (seq 0 (length rows))
                  ++ map (λ '(v, p1, p2),
                            eligibility_constraint v (is_pairable p1 p2)) vps)
                 LpStatusNotSolved (dummy_of score ps))).
Proof.
  intros ps pms.
  destruct (_initialse_problem_init matrix_similarity is_pairing_preferred
              is_pairable ps) as (vps & HF & Hp).
  subst ps pms. rewrite length_map in *.
  exists vps. split; [done|].
  unfold MatchMaker_init, _create_match_variables.
  rewrite _initialise_participants_eq, Hp. cbn. by rewrite ?length_map.
Qed.

(** The store of a run on the roster [ps], after the solver wrote [sol]. *)
Lemma lookup_solved_store ps sol pm :
  pm ∈ build_possible_matches (length ps) →
  write_values sol (variables (MatchTracker_init ps)) !! pm
  = Some (mkLpVariable 0 1 LpInteger (sol !! pm)).
Proof.
  intros Hpm. by rewrite lookup_write_values, lookup_variables_init, decide_True.
Qed.

Lemma solved_store_values ps sol (p : LpProblem) pm :
  feasible p (write_values sol (variables (MatchTracker_init ps))) = true →
  pm ∈ build_possible_matches (length ps) →
  sol !! pm = Some (value_of sol pm) ∧ (0 ≤ value_of sol pm ≤ 1)%Z.
Proof.
  intros [Hv _]%feasible_inv Hpm.
  specialize (Hv _ _ (lookup_solved_store ps sol pm Hpm)).
  unfold var_in_domain, value_of in *. cbn in Hv.
  destruct (sol !! pm) as [z|]; [|done].
  apply bool_decide_eq_true in Hv. done.
Qed.

(** Extraction after a solve that assigned every variable. *)
Lemma get_true_possible_matches_assigned ps sol :
  (∀ pm, pm ∈ build_possible_matches (length ps) → is_Some (sol !! pm)) →
  get_true_possible_matches
    (mkMatchTracker ps (build_possible_matches (length ps))
       (write_values sol (variables (MatchTracker_init ps))))
  = Ok (selected sol (build_possible_matches (length ps))).
Proof.
  intros Hall. apply filterM_Ok_filter. intros pm Hpm.
  unfold varValue_positive. cbn [variables].
  rewrite lookup_solved_store by done. cbn.
  unfold value_of. by destruct (Hall pm Hpm) as [z ->].
Qed.

Lemma coverage_sum ps sol (p : LpProblem) idx :
  feasible p (write_values sol (variables (MatchTracker_init ps))) = true →
  coverage_constraint (build_possible_matches (length ps)) idx ∈ constraints p →
  length (filter (λ pm, idx ∈ pm)
            (selected sol (build_possible_matches (length ps)))) = 1.
Proof.
  intros Hf Hc. pose proof Hf as [_ Hcs]%feasible_inv.
  specialize (Hcs _ Hc). unfold constraint_holds, coverage_constraint in Hcs.
  cbn [c_expr c_sense c_rhs] in Hcs. unfold expr_value in Hcs.
  set (L := filter (λ pm, idx ∈ pm) (build_possible_matches (length ps))) in *.
  destruct (expr_value_from_units
              (write_values sol (variables (MatchTracker_init ps)))
              (value_of sol) L 0%Q) as (q & Hq & Heq).
  { intros k [_ Hk]%list_elem_of_filter.
    rewrite lookup_solved_store by done. cbn.
    by destruct (solved_store_values ps sol p k Hf Hk). }
  rewrite Hq in Hcs. cbn in Hcs. apply Qeq_bool_iff in Hcs.
  rewrite Hcs, Qplus_0_l in Heq.
  change 1%Q with (inject_Z 1) in Heq.
  apply (proj1 (inject_Z_injective _ _)) in Heq.
  rewrite Zsum_zero_one in Heq.
  2:{ intros k [_ Hk]%list_elem_of_filter.
      by destruct (solved_store_values ps sol p k Hf Hk). }
  unfold selected. rewrite filter_comm. fold L. lia.
Qed.
End Runs.

(** What an eligibility constraint says of the value of its variable. *)
Lemma eligibility_holds_iff {Person} (ps : list Person) (sol : gmap tuple Z) (pm : tuple)
    (z c : Z) :
  pm ∈ build_possible_matches (length ps) →
  sol !! pm = Some z →
  constraint_holds (write_values sol (variables (MatchTracker_init ps)))
    (eligibility_constraint pm c) = true
  ↔ (z ≤ c)%Z.
Proof.
  intros Hpm Hz. unfold constraint_holds, eligibility_constraint, expr_value.
  cbn [c_expr c_sense c_rhs expr_value_from cmp_sense].
  rewrite lookup_solved_store by done. cbn. rewrite Hz. cbn.
  rewrite Qle_bool_iff. unfold Qle. cbn. lia.
Qed.

(** What a coverage constraint says of the values of its variables. *)
Lemma coverage_holds_iff {Person} (ps : list Person) (sol : gmap tuple Z) (f : tuple → Z)
    (idx : nat) :
  (∀ pm, pm ∈ build_possible_matches (length ps) → sol !! pm = Some (f pm)) →
  constraint_holds (write_values sol (variables (MatchTracker_init ps)))
    (coverage_constraint (build_possible_matches (length ps)) idx) = true
  ↔ Zsum (map f (filter (λ pm, idx ∈ pm) (build_possible_matches (length ps))))
    = 1%Z.
Proof.
  intros Hsol. unfold constraint_holds, coverage_constraint, expr_value.
  cbn [c_expr c_sense c_rhs cmp_sense].
  destruct (expr_value_from_units
              (write_values sol (variables (MatchTracker_init ps))) f
              (filter (λ pm, idx ∈ pm) (build_possible_matches (length ps)))
              0%Q) as (q & -> & Heq).
  { intros k [_ Hk]%list_elem_of_filter. rewrite lookup_solved_store by done.
    cbn. by apply Hsol. }
  rewrite Qeq_bool_iff, Heq, Qplus_0_l. change 1%Q with (inject_Z 1).
  apply inject_Z_injective.
Qed.

Section Infeasibility.
Context {Person Row : Type}.
Variable build : Row → Person.
Variable matrix_similarity : Person → Person → float.
Variable is_pairing_preferred : Person → Person → float.
Variable is_pairable : Person → Person → Z.

Local Abbreviation init := (MatchMaker_init build matrix_similarity
                              is_pairing_preferred is_pairable).

(** A participant without a pairable candidate pair cannot be covered. *)
Lemma uncovered_infeasible (rows : list Row) (idx : nat) :
  idx < length rows →
  (∀ pm p1 p2,
     pm ∈ build_possible_matches (length rows) → idx ∈ pm →
     pair_people (map build rows) pm p1 p2 →
     (is_pairable p1 p2 ≤ 0)%Z) →
  ∃ mm, init rows = Ok mm ∧ ∀ out, ¬ solved_run mm out.
Proof.
  intros Hidx Hnone.
  destruct (MatchMaker_init_Ok build matrix_similarity is_pairing_preferred
              is_pairable rows) as (vps & HF & Hinit).
  set (ps := map build rows) in *.
  assert (length rows = length ps) as Hlen by (subst ps; by rewrite length_map).
  rewrite Hlen in HF, Hinit, Hnone.
  eexists. split; [exact Hinit|]. intros out Hrun.
  unfold solved_run in Hrun. cbn [prob match_tracker] in Hrun.
  match type of Hrun with feasible ?p0 _ = true => set (p := p0) in * end.
  assert (coverage_constraint (build_possible_matches (length ps)) idx
          ∈ constraints p) as Hcov.
  { apply elem_of_app. left. apply list_elem_of_fmap. exists idx.
    split; [done|]. apply elem_of_seq. lia. }
  pose proof (coverage_sum ps (out_values out) p idx Hrun Hcov) as Hone.
  destruct (filter (λ pm, idx ∈ pm)
              (selected (out_values out) (build_possible_matches (length ps))))
    as [|pm l] eqn:Hfilter; [done|].
  assert (pm ∈ pm :: l) as Hin by left. rewrite <- Hfilter in Hin.
  apply list_elem_of_filter in Hin as [Hidx' [Hpos Hpm]%list_elem_of_filter].
  pose proof Hpm as [n Hn]%list_elem_of_lookup.
  destruct (Forall2_lookup_l _ _ _ _ _ HF Hn) as ([[v p1] p2] & Hv & -> & Hpp).
  assert (eligibility_constraint pm (is_pairable p1 p2) ∈ constraints p) as Hc.
  { apply elem_of_app. right. apply list_elem_of_fmap. exists (pm, p1, p2).
    split; [done|]. by eapply list_elem_of_lookup_2. }
  destruct (solved_store_values ps _ p pm Hrun Hpm) as [Hval _].
  pose proof Hrun as [_ Hcs]%feasible_inv. specialize (Hcs _ Hc).
  rewrite (eligibility_holds_iff ps _ pm _ _ Hpm Hval) in Hcs.
  specialize (Hnone pm p1 p2 Hpm Hidx' Hpp). lia.
Qed.
End Infeasibility.

Lemma pair_people_fun {Person} (ps : list Person) (pm : tuple)
    (p1 p2 q1 q2 : Person) :
  pair_people ps pm p1 p2 → pair_people ps pm q1 q2 → p1 = q1 ∧ p2 = q2.
Proof.
  intros (i & j & -> & Hi & Hj) (i' & j' & ? & Hi' & Hj'). simplify_eq. done.
Qed.

Lemma pair_score_Some {Person} (score : Person → Person → float)
    (ps : list Person) (pm : tuple) (s : float) :
  pair_score score ps pm = Some s
  ↔ ∃ p1 p2, pair_people ps pm p1 p2 ∧ s = score p1 p2.
Proof.
  split.
  - destruct pm as [|i [|j [|? ?]]]; cbn; try done.
    destruct (ps !! i) as [p1|] eqn:Hi; [|done]. cbn.
    destruct (ps !! j) as [p2|] eqn:Hj; [|done]. cbn.
    intros [= <-]. exists p1, p2. split; [by exists i, j|done].
  - intros (p1 & p2 & Hpp & ->). by apply pair_score_people.
Qed.

Lemma elem_of_score_terms {Person} (score : Person → Person → float)
    (ps : list Person) (v : LpElement) (c : float) :
  (v, c) ∈ score_terms score ps
  ↔ ∃ pm p1 p2,
      v = MatchVariable pm
      ∧ pm ∈ build_possible_matches (length ps)
      ∧ pair_people ps pm p1 p2
      ∧ c = score p1 p2
      ∧ nonzero c = true.
Proof.
  unfold score_terms. rewrite list_elem_of_omap. split.
  - intros (pm & Hpm & Hterm).
    destruct (pair_score score ps pm) as [s|] eqn:Hs; [|done].
    cbn in Hterm. destruct (nonzero s) eqn:Hnz; [|done].
    injection Hterm as <- <-.
    apply pair_score_Some in Hs as (p1 & p2 & Hpp & ->).
    by exists pm, p1, p2.
  - intros (pm & p1 & p2 & -> & Hpm & Hpp & -> & Hnz).
    exists pm. split; [done|].
    rewrite (pair_score_people _ _ _ _ _ Hpp). cbn. by rewrite Hnz.
Qed.

Lemma score_terms_scored {Person} (score : Person → Person → float)
    (ps : list Person) :
  score_terms score ps ≠ [] ↔ scored score ps.
Proof.
  split.
  - destruct (score_terms score ps) as [|[v c] ts] eqn:Hts; [done|]. intros _.
    assert ((v, c) ∈ score_terms score ps) as Hin by (rewrite Hts; left).
    apply elem_of_score_terms in Hin as (pm & p1 & p2 & _ & Hpm & Hpp & -> & Hnz).
    by exists pm, p1, p2.
  - intros (pm & p1 & p2 & Hpm & Hpp & Hnz) Hnil.
    assert ((MatchVariable pm, score p1 p2) ∈ score_terms score ps) as Hin.
    { apply elem_of_score_terms. by exists pm, p1, p2. }
    rewrite Hnil in Hin. by apply elem_of_nil in Hin.
Qed.



(** The terms of the objective: those of the scored pairs, or [0*__dummy]. *)
Lemma objective_terms_cases {Person} (score : Person → Person → float)
    (ps : list Person) :
  (scored score ps ∧ objective_terms score ps = score_terms score ps
   ∧ dummy_of score ps = None)
  ∨ (¬ scored score ps ∧ objective_terms score ps = [(DummyVariable, 0%float)]
     ∧ dummy_of score ps = Some (mkLpVariable 0 0 LpContinuous None)).
Proof.
  pose proof (score_terms_scored score ps) as Hiff.
  unfold objective_terms, dummy_of.
  destruct (score_terms score ps) as [|t ts]; [right|left].
  - split; [|done]. intros Hs. by apply Hiff in Hs.
  - split; [|done]. by apply Hiff.
Qed.

Section Claims.
Context {Person Row : Type}.
Variable build : Row → Person.
Variable matrix_similarity : Person → Person → float.
Variable is_pairing_preferred : Person → Person → float.
Variable is_pairable : Person → Person → Z.

Local Abbreviation init := (MatchMaker_init build matrix_similarity
                              is_pairing_preferred is_pairable).

(** C1. The model holds, for every participant index, the constraint that
    the variables whose key contains the index sum to 1, the self-pair
    among them once; so in every solved run every index lies in exactly
    one selected candidate pair. *)
Theorem coverage_exactly_one (rows : list Row) :
  ∃ mm,
    init rows = Ok mm
    ∧ (∀ idx, idx < length rows →
         let touching :=
           filter (λ pm, idx ∈ pm) (possible_matches (match_tracker mm)) in
         mkLpConstraint (map (λ pm, (pm, 1%Q)) touching) LpConstraintEQ 1%Q
           ∈ constraints (prob mm)
         ∧ NoDup touching ∧ [idx; idx] ∈ touching)
    ∧ (∀ out, solved_run mm out →
         ∃ sel,
           get_true_possible_matches (match_tracker (solver_run mm out)) = Ok sel
           ∧ ∀ idx, idx < length rows →
               length (filter (λ pm, idx ∈ pm) sel) = 1).
Proof.
  destruct (MatchMaker_init_Ok build matrix_similarity is_pairing_preferred
              is_pairable rows) as (vps & HF & Hinit).
  eexists. split; [exact Hinit|].
  cbn [match_tracker prob constraints possible_matches MatchTracker_init
       mm_persons].
  rewrite length_map.
  set (pms := build_possible_matches (length rows)) in *.
  assert (∀ idx, idx < length rows →
            coverage_constraint pms idx
            ∈ map (coverage_constraint pms) (seq 0 (length rows))
              ++ map (λ '(v, p1, p2),
                        eligibility_constraint v (is_pairable p1 p2)) vps)
    as Hcov.
  { intros idx Hidx. apply elem_of_app. left.
    apply list_elem_of_fmap. exists idx. split; [done|].
    apply elem_of_seq. lia. }
  split.
  - intros idx Hidx. split_and!.
    + by apply Hcov.
    + apply NoDup_filter, NoDup_build_possible_matches.
    + apply list_elem_of_filter. split; [by left|].
      apply elem_of_build_possible_matches. exists idx, idx. split; [done|].
      by right.
  - intros out Hrun. unfold solved_run in Hrun.
    cbn [match_tracker prob variables] in Hrun.
    assert (pms = build_possible_matches (length (map build rows))) as Hpms
      by by rewrite length_map.
    exists (selected (out_values out) pms). split.
    + rewrite Hpms. apply get_true_possible_matches_assigned.
      rewrite <- Hpms. intros pm Hpm. rewrite Hpms in Hpm.
      destruct (solved_store_values _ _ _ pm Hrun Hpm) as [-> _]. eauto.
    + intros idx Hidx. rewrite Hpms. eapply coverage_sum; [exact Hrun|].
      cbn [constraints]. rewrite <- Hpms. by apply Hcov.
Qed.

(** C3. The model holds, for every candidate pair, the constraint that its
    variable is at most the pairability of the pair; so a pair whose
    pairability is 0 is selected in no solved run, whatever its
    similarity. *)
Theorem eligibility_excludes (rows : list Row) :
  ∃ mm,
    init rows = Ok mm
    ∧ (∀ pm, pm ∈ possible_matches (match_tracker mm) →
         ∃ p1 p2,
           pair_people (mm_persons mm) pm p1 p2
           ∧ mkLpConstraint [(pm, 1%Q)] LpConstraintLE
               (inject_Z (is_pairable p1 p2))
             ∈ constraints (prob mm))
    ∧ (∀ out, solved_run mm out →
         ∃ sel,
           get_true_possible_matches (match_tracker (solver_run mm out)) = Ok sel
           ∧ ∀ pm p1 p2,
               pair_people (mm_persons mm) pm p1 p2 →
               is_pairable p1 p2 = 0%Z →
               pm ∉ sel).
Proof.
  destruct (MatchMaker_init_Ok build matrix_similarity is_pairing_preferred
              is_pairable rows) as (vps & HF & Hinit).
  eexists. split; [exact Hinit|].
  cbn [match_tracker prob constraints possible_matches MatchTracker_init
       mm_persons].
  rewrite length_map.
  set (pms := build_possible_matches (length rows)) in *.
  assert (∀ pm, pm ∈ pms →
            ∃ p1 p2,
              pair_people (map build rows) pm p1 p2
              ∧ eligibility_constraint pm (is_pairable p1 p2)
                ∈ map (coverage_constraint pms) (seq 0 (length rows))
                  ++ map (λ '(v, p1, p2),
                            eligibility_constraint v (is_pairable p1 p2)) vps)
    as Helig.
  { intros pm [n Hn]%list_elem_of_lookup.
    destruct (Forall2_lookup_l _ _ _ _ _ HF Hn) as ([[v p1] p2] & Hv & -> & Hpp).
    exists p1, p2. split; [done|]. apply elem_of_app. right.
    apply list_elem_of_fmap. exists (pm, p1, p2). split; [done|].
    by eapply list_elem_of_lookup_2. }
  split; [exact Helig|].
  intros out Hrun. unfold solved_run in Hrun.
  cbn [match_tracker prob variables] in Hrun.
  assert (pms = build_possible_matches (length (map build rows))) as Hpms
    by by rewrite length_map.
  exists (selected (out_values out) pms). split.
  { rewrite Hpms. apply get_true_possible_matches_assigned.
    rewrite <- Hpms. intros pm Hpm. rewrite Hpms in Hpm.
    destruct (solved_store_values _ _ _ pm Hrun Hpm) as [-> _]. eauto. }
  intros pm p1 p2 Hpp Hzero [Hpos Hpm]%list_elem_of_filter.
  destruct (Helig pm Hpm) as (q1 & q2 & Hqq & Hin).
  destruct (pair_people_fun _ _ _ _ _ _ Hpp Hqq) as [<- <-].
  pose proof Hrun as [_ Hcs]%feasible_inv. specialize (Hcs _ Hin).
  unfold constraint_holds, eligibility_constraint, expr_value in Hcs.
  cbn [c_expr c_sense c_rhs expr_value_from] in Hcs.
  rewrite Hpms in Hpm. rewrite lookup_solved_store in Hcs by done.
  destruct (solved_store_values _ _ _ pm Hrun Hpm) as [Hval _].
  cbn in Hcs. rewrite Hval, Hzero in Hcs. cbn in Hcs.
  apply Qle_bool_iff in Hcs. unfold Qle in Hcs. cbn in Hcs. lia.
Qed.

End Claims.

(** C2. The candidate-pair keys of [MatchTracker] are exactly the pairs
    [(i, j)] with [i < j < N] and the self-pairs [(i, i)] with [i < N], each
    once, none with [i > j], [N (N + 1) / 2] in all; the variables are keyed
    by these, so of [(i, j)] and [(j, i)] with [i ≠ j] at most one is a
    variable. *)
Theorem candidate_pair_space {Person} (persons : list Person) :
  let N := length persons in
  let t := MatchTracker_init persons in
  (∀ pm, pm ∈ possible_matches t
         ↔ ∃ i j, pm = [i; j] ∧ ((i < j ∧ j < N) ∨ (i = j ∧ i < N)))
  ∧ NoDup (possible_matches t)
  ∧ (∀ i j, [i; j] ∈ possible_matches t → i ≤ j)
  ∧ length (possible_matches t) = N * (N + 1) / 2
  ∧ (∀ pm, is_Some (variables t !! pm) ↔ pm ∈ possible_matches t)
  ∧ (∀ i j, i ≠ j →
       ¬ (is_Some (variables t !! [i; j]) ∧ is_Some (variables t !! [j; i]))).
Proof.
  intros N t. subst t. cbn [possible_matches MatchTracker_init].
  assert (∀ pm, is_Some (variables (MatchTracker_init persons) !! pm)
                ↔ pm ∈ build_possible_matches N) as Hvars.
  { intros pm. rewrite lookup_variables_init. fold N.
    case_decide; split; (done || by intros [??] || eauto). }
  split_and!.
  - apply elem_of_build_possible_matches.
  - apply NoDup_build_possible_matches.
  - intros i j (i' & j' & ? & H)%elem_of_build_possible_matches.
    simplify_eq. lia.
  - apply length_build_possible_matches.
  - exact Hvars.
  - intros i j Hij [(i1 & j1 & ? & H1)%Hvars%elem_of_build_possible_matches
                    (i2 & j2 & ? & H2)%Hvars%elem_of_build_possible_matches].
    simplify_eq. lia.
Qed.

(** ** The report of a run *)

Lemma group_total_update {V} (k : string) (x : V) (d : list (string * list V)) :
  group_total (defaultdict_update [] (λ l, l ++ [x]) k d) = S (group_total d).
Proof.
  unfold group_total. induction d as [|[k' v] d IH]; [done|].
  cbn [defaultdict_update]. destruct (String.eqb k' k); cbn.
  - rewrite length_app. cbn. lia.
  - cbn in IH. rewrite IH. lia.
Qed.


(** An update leaves what was grouped where it was and adds the new item
    under its key. *)
Lemma elem_of_defaultdict_update {V} (k : string) (x : V)
    (d : list (string * list V)) (k' : string) (y : V) :
  (∃ grp, (k', grp) ∈ defaultdict_update [] (λ l, l ++ [x]) k d ∧ y ∈ grp)
  ↔ (∃ grp, (k', grp) ∈ d ∧ y ∈ grp) ∨ (k' = k ∧ y = x).
Proof.
  induction d as [|[k0 v] d IH]; cbn [defaultdict_update].
  - split.
    + intros (grp & Hin%list_elem_of_singleton & Hy). simplify_eq.
      apply list_elem_of_singleton in Hy. by right.
    + intros [(grp & Hn%elem_of_nil & _)|[-> ->]]; [done|].
      exists [x]. split; by apply list_elem_of_singleton.
  - destruct (String.eqb k0 k) eqn:Hk.
    + apply String.eqb_eq in Hk as ->. split.
      * intros (grp & [?|Hin]%elem_of_cons & Hy).
        -- simplify_eq. apply elem_of_app in Hy as [Hy|Hy%list_elem_of_singleton].
           ++ left. eexists. split; [by left|done].
           ++ by right.
        -- left. exists grp. split; [by right|done].
      * intros [(grp & [?|Hin]%elem_of_cons & Hy)|[-> ->]].
        -- simplify_eq. eexists. split; [by left|].
           apply elem_of_app. by left.
        -- exists grp. split; [by right|done].
        -- exists (v ++ [x]). split; [by left|].
           apply elem_of_app. right. by apply list_elem_of_singleton.
    + split.
      * intros (grp & [?|Hin]%elem_of_cons & Hy).
        -- simplify_eq. left. eexists. split; [by left|done].
        -- destruct (proj1 IH) as [(g & ? & ?)|?]; [by exists grp| |by right].
           left. exists g. split; [by right|done].
      * intros [(grp & [?|Hin]%elem_of_cons & Hy)|Hnew].
        -- simplify_eq. eexists. split; [by left|done].
        -- destruct (proj2 IH) as (g & ? & ?); [left; by exists grp|].
           exists g. split; [by right|done].
        -- destruct (proj2 IH) as (g & ? & ?); [by right|].
           exists g. split; [by right|done].
Qed.

Section Report.
Context {Person Row : Type}.
Variable build : Row → Person.
Variable matrix_similarity : Person → Person → float.
Variable is_pairing_preferred : Person → Person → float.
Variable is_pairable : Person → Person → Z.
Variable Person_ne : Person → Person → bool.
Variable day_choice : Person → string.
Variable gender_title : Person → string.

Implicit Types (ps : list Person) (pm : tuple) (sol : gmap tuple Z)
  (e : nat * nat * Person * Person) (es : list (nat * nat * Person * Person))
  (ms : list (Person * Person)).

Lemma day_step_total acc es :
  group_total (foldl (day_step day_choice) acc es).1
  = group_total acc.1 + length (matches_by_index es).
Proof.
  revert acc. induction es as [|[[[i j] p1] p2] es IH]; intros [d u]; cbn [foldl].
  - cbn. lia.
  - rewrite IH. unfold matches_by_index. rewrite filter_cons.
    cbn [day_step fst snd].
    destruct (Nat.eqb_spec i j) as [->|Hij]; cbn [fst snd].
    + rewrite decide_False by (by intros ?). lia.
    + rewrite decide_True by done. rewrite group_total_update.
      cbn [length]. lia.
Qed.

Lemma day_step_groups acc es (k : string) (y : nat * nat) :
  (∃ grp, (k, grp) ∈ (foldl (day_step day_choice) acc es).1 ∧ y ∈ grp)
  ↔ (∃ grp, (k, grp) ∈ acc.1 ∧ y ∈ grp)
    ∨ ∃ i j p1 p2,
        (i, j, p1, p2) ∈ es ∧ i ≠ j ∧ y = (i, j)
        ∧ k = get_day_or_either (day_choice p1) (day_choice p2).
Proof.
  revert acc. induction es as [|[[[i j] p1] p2] es IH]; intros [d u]; cbn [foldl].
  - split; [by left|]. intros [?|(? & ? & ? & ? & []%elem_of_nil & _)]. done.
  - rewrite IH. cbn [day_step]. destruct (Nat.eqb_spec i j) as [->|Hij]; cbn [fst].
    + split.
      * intros [?|(i' & j' & q1 & q2 & ? & ?)]; [by left|].
        right. exists i', j', q1, q2. split; [by right|done].
      * intros [?|(i' & j' & q1 & q2 & [?|?]%elem_of_cons & Hne & ?)]; [by left| |].
        -- simplify_eq.
        -- right. by exists i', j', q1, q2.
    + rewrite elem_of_defaultdict_update. split.
      * intros [[?|[-> ->]]|(i' & j' & q1 & q2 & ? & ?)]; [by left| |].
        -- right. exists i, j, p1, p2. split; [by left|done].
        -- right. exists i', j', q1, q2. split; [by right|done].
      * intros [?|(i' & j' & q1 & q2 & [?|?]%elem_of_cons & Hne & -> & ->)].
        -- by left; left.
        -- simplify_eq. by left; right.
        -- right. by exists i', j', q1, q2.
Qed.


Lemma count_step_total (scores : list float) (n : Z) ms :
  foldl (count_step matrix_similarity Person_ne) (scores, n) ms
  = (scores ++ map (λ m, matrix_similarity m.1 m.2) ms,
     (n + 2 * Z.of_nat (length (matches_by_person Person_ne ms)))%Z).
Proof.
  revert scores n. induction ms as [|[p1 p2] ms IH]; intros scores n; cbn [foldl].
  - rewrite app_nil_r. cbn. f_equal. lia.
  - cbn [count_step]. rewrite IH. unfold matches_by_person.
    rewrite filter_cons. cbn [map fst snd]. rewrite <- app_assoc.
    destruct (Person_ne p1 p2).
    + rewrite decide_True by done. cbn [length app]. f_equal. lia.
    + rewrite decide_False by done. done.
Qed.

Lemma entries_exist ps (sel : list tuple) :
  (∀ pm, pm ∈ sel → pm ∈ build_possible_matches (length ps)) →
  ∃ es, Forall2 (entry_of ps) sel es.
Proof.
  induction sel as [|pm sel IH]; intros H.
  - exists []. constructor.
  - destruct IH as [es Hes]; [intros; apply H; by right|].
    pose proof (H pm ltac:(by left))
      as (i & j & -> & Hij)%elem_of_build_possible_matches.
    destruct (lookup_lt_is_Some_2 ps i) as [p1 Hp1]; [lia|].
    destruct (lookup_lt_is_Some_2 ps j) as [p2 Hp2]; [lia|].
    exists ((i, j, p1, p2) :: es). by constructor.
Qed.

Lemma log_matches_loop ps (sel : list tuple) es
    (acc : list (string * list (nat * nat)) * list nat) :
  Forall2 (entry_of ps) sel es →
  foldlM (λ '(day_dict, unmatched) possible_match,
            '(idx1, idx2) ← unpack2 possible_match;
            if Nat.eqb idx1 idx2 then mret (day_dict, unmatched ++ [idx1])
            else
              p1 ← getitem ps idx1;
              p2 ← getitem ps idx2;
              mret (defaultdict_update [] (λ l, l ++ [(idx1, idx2)])
                      (get_day_or_either (day_choice p1) (day_choice p2))
                      day_dict,
                    unmatched))
    acc sel
  = Ok (foldl (day_step day_choice) acc es).
Proof.
  intros HF. revert acc.
  induction HF as [|pm [[[i j] p1] p2] sel es (-> & Hp1 & Hp2) _ IH];
    intros [d u]; [done|].
  cbn [foldlM foldl day_step unpack2]. cbn [mbind result_bind].
  destruct (Nat.eqb i j); cbn [mret result_ret mbind result_bind].
  - apply IH.
  - unfold getitem. rewrite Hp1, Hp2. cbn [mbind result_bind]. apply IH.
Qed.

Lemma get_matches_entries ps sol es :
  (∀ pm, pm ∈ build_possible_matches (length ps) → is_Some (sol !! pm)) →
  Forall2 (entry_of ps) (selected sol (build_possible_matches (length ps))) es →
  get_matches
    (mkMatchTracker ps (build_possible_matches (length ps))
       (write_values sol (variables (MatchTracker_init ps))))
  = Ok (map entry_people es).
Proof.
  intros Hall HF. unfold get_matches.
  rewrite get_true_possible_matches_assigned by done.
  cbn [mbind result_bind persons].
  apply mapM_Ok_Forall2, Forall2_fmap_r.
  eapply Forall2_impl; [exact HF|].
  intros pm [[[i j] p1] p2] (-> & Hp1 & Hp2).
  unfold getitem. cbn. rewrite Hp1. cbn. by rewrite Hp2.
Qed.
End Report.

(** The value of the objective is a float once every variable of its terms
    has a value. *)
Lemma value_from_assigned (d : store) (dummy : option LpVariable) (s : float)
    (e : list (LpElement * float)) :
  (∀ v c, (v, c) ∈ e → is_Some (element_value d dummy v)) →
  is_Some (value_from d dummy s e).
Proof.
  revert s. induction e as [|[v c] e IH]; intros s H; [by eexists|].
  cbn [value_from]. destruct (H v c) as [z ->]; [by left|].
  apply IH. intros; eapply H; by right.
Qed.

Section Solve.
Context {Person Row : Type}.
Variable build : Row → Person.
Variable matrix_similarity : Person → Person → float.
Variable is_pairing_preferred : Person → Person → float.
Variable is_pairable : Person → Person → Z.
Variable Person_ne : Person → Person → bool.
Variable day_choice : Person → string.
Variable gender_title : Person → string.

Local Abbreviation init := (MatchMaker_init build matrix_similarity
                              is_pairing_preferred is_pairable).
Local Abbreviation run := (solve matrix_similarity Person_ne day_choice
                             gender_title).
Local Abbreviation score := (score_of matrix_similarity is_pairing_preferred).

Section OneRun.
Variables (ps : list Person) (p : LpProblem) (out : SolverOutput).
Variable es : list (nat * nat * Person * Person).

Let mm := mkMatchMaker ps (MatchTracker_init ps) p.
Let pms := build_possible_matches (length ps).

Hypothesis Hall : ∀ pm, pm ∈ pms → is_Some (out_values out !! pm).
Hypothesis Hes : Forall2 (entry_of ps) (selected (out_values out) pms) es.

Lemma solver_run_tracker :
  match_tracker (solver_run mm out)
  = mkMatchTracker ps pms
      (write_values (out_values out) (variables (MatchTracker_init ps))).
Proof. done. Qed.

Lemma get_matches_run :
  get_matches (match_tracker (solver_run mm out)) = Ok (map entry_people es).
Proof. rewrite solver_run_tracker. by apply get_matches_entries. Qed.

Lemma log_stats_run :
  log_stats Person_ne gender_title (solver_run mm out)
  = Ok (foldl (gender_step Person_ne gender_title) [] (map entry_people es)).
Proof. unfold log_stats. by rewrite get_matches_run. Qed.

Lemma log_matches_run :
  log_matches Person_ne day_choice gender_title (solver_run mm out)
  = Ok ((foldl (day_step day_choice) ([], []) es).1,
        (foldl (day_step day_choice) ([], []) es).2,
        foldl (gender_step Person_ne gender_title) [] (map entry_people es)).
Proof.
  unfold log_matches. rewrite solver_run_tracker. unfold pms in *.
  rewrite get_true_possible_matches_assigned by done.
  cbn [mbind result_bind]. change (mm_persons (solver_run mm out)) with ps.
  rewrite (log_matches_loop day_choice ps _ es) by done.
  cbn [mbind result_bind]. rewrite log_stats_run.
  by destruct (foldl (day_step day_choice) ([], []) es).
Qed.

Lemma mean_score_run (obj : LpObjective) :
  ps ≠ [] →
  objective p = Some obj →
  o_terms obj ≠ [] →
  (∀ v c, (v, c) ∈ o_terms obj → ∃ k, v = MatchVariable k ∧ k ∈ pms) →
  ∃ mean, mean_score (solver_run mm out) = Ok mean.
Proof.
  intros Hne Hobj Hterms Hkeys.
  unfold mean_score, objective_value.
  change (prob (solver_run mm out))
    with (let p' := fix_restore p in
          mkLpProblem (prob_name p') (sense p') (objective p') (constraints p')
            (out_status out) (dummyVar p')).
  rewrite (fix_restore_terms p obj Hobj Hterms). cbn [objective dummyVar].
  rewrite Hobj. cbn [mbind result_bind]. rewrite solver_run_tracker.
  cbn [variables].
  destruct (value_from_assigned
              (write_values (out_values out) (variables (MatchTracker_init ps)))
              (dummyVar p) (o_constant obj) (o_terms obj)) as [x ->].
  { intros v c (k & -> & Hk)%Hkeys. cbn [element_value].
    rewrite lookup_solved_store by done. cbn. by apply Hall. }
  change (mm_persons (solver_run mm out)) with ps.
  destruct (Nat.eqb_spec (length ps) 0) as [Hz|_]; [|eauto].
  by destruct ps.
Qed.

Lemma solve_run (obj : LpObjective) :
  ps ≠ [] →
  objective p = Some obj →
  o_terms obj ≠ [] →
  (∀ v c, (v, c) ∈ o_terms obj → ∃ k, v = MatchVariable k ∧ k ∈ pms) →
  ∃ mean,
    run mm out
    = Ok (mkReport (LpStatus_name (out_status out)) mean
            (map (λ m, matrix_similarity m.1 m.2) (map entry_people es))
            (foldl (day_step day_choice) ([], []) es).1
            (foldl (day_step day_choice) ([], []) es).2
            (foldl (gender_step Person_ne gender_title) []
               (map entry_people es))
            (2 * Z.of_nat (length (matches_by_person Person_ne
                                     (map entry_people es))))
            (Z.of_nat (length ps)
             - 2 * Z.of_nat (length (matches_by_person Person_ne
                                       (map entry_people es))))).
Proof.
  intros Hne Hobj Hterms Hkeys.
  destruct (mean_score_run obj Hne Hobj Hterms Hkeys) as [mean Hmean].
  exists mean. unfold solve. rewrite Hmean. cbn [mbind result_bind].
  rewrite get_matches_run. cbn [mbind result_bind].
  pose proof (count_step_total matrix_similarity Person_ne [] 0%Z
                (map entry_people es)) as Hcount.
  unfold count_step in Hcount. rewrite Hcount, log_matches_run. done.
Qed.
End OneRun.

(** The mean-score line of [solve] on the problem of a roster: it raises
    [TypeError] where no candidate pair has a score, for the value of an
    objective that holds [0*__dummy] is [None]. *)
Lemma mean_score_unscored (ps : list Person) (c : float)
    (cs : list LpConstraint) (st : LpStatus) (out : SolverOutput) :
  ¬ scored score ps →
  mean_score
    (solver_run
       (mkMatchMaker ps (MatchTracker_init ps)
          (mkLpProblem "Date_Pairing_Problem" LpMaximize
             (Some (mkLpObjective (objective_terms score ps) c)) cs st
             (dummy_of score ps))) out)
  = Raise TypeError.
Proof.
  intros Hns.
  destruct (objective_terms_cases score ps) as [[Hs _]|(_ & -> & ->)]; [done|].
  reflexivity.
Qed.

(** Whatever the solver returned, the mean-score line raises nothing but
    [TypeError]. *)
Lemma mean_score_cases (ps : list Person) (c : float)
    (cs : list LpConstraint) (st : LpStatus) (out : SolverOutput) :
  let mm := mkMatchMaker ps (MatchTracker_init ps)
              (mkLpProblem "Date_Pairing_Problem" LpMaximize
                 (Some (mkLpObjective (objective_terms score ps) c)) cs st
                 (dummy_of score ps)) in
  mean_score (solver_run mm out) = Raise TypeError
  ∨ ∃ mean, mean_score (solver_run mm out) = Ok mean.
Proof.
  intros mm.
  destruct (objective_terms_cases score ps) as [(Hs & Ht & Hd)|(Hns & _)].
  2:{ left. by apply mean_score_unscored. }
  assert (ps ≠ []) as Hne.
  { destruct Hs as (pm & p1 & p2 & Hpm & _). intros ->. cbn in Hpm.
    by apply elem_of_nil in Hpm. }
  subst mm. unfold mean_score, objective_value.
  match goal with
  | |- context [solver_run (mkMatchMaker _ _ ?p0) _] => set (p := p0)
  end.
  change (prob (solver_run (mkMatchMaker ps (MatchTracker_init ps) p) out))
    with (let p' := fix_restore p in
          mkLpProblem (prob_name p') (sense p') (objective p') (constraints p')
            (out_status out) (dummyVar p')).
  rewrite (fix_restore_terms p (mkLpObjective (objective_terms score ps) c));
    [|done|].
  2:{ cbn [o_terms]. rewrite Ht. by apply score_terms_scored. }
  cbn [objective dummyVar p mbind result_bind o_terms o_constant].
  destruct (value_from _ _ _ _) as [x|]; [|by left].
  right. change (mm_persons (solver_run _ out)) with ps.
  destruct (Nat.eqb_spec (length ps) 0) as [Hz|_]; [|eauto].
  by destruct ps.
Qed.

(** What [solve] reports on a roster with a scored pair once the solver has
    given every variable a value. *)
Lemma solve_report (rows : list Row) (out : SolverOutput) :
  let ps := map build rows in
  let pms := build_possible_matches (length rows) in
  scored score ps →
  (∀ pm, pm ∈ pms → is_Some (out_values out !! pm)) →
  ∃ mm es mean,
    init rows = Ok mm
    ∧ Forall2 (entry_of ps) (selected (out_values out) pms) es
    ∧ run mm out
      = Ok (mkReport (LpStatus_name (out_status out)) mean
              (map (λ m, matrix_similarity m.1 m.2) (map entry_people es))
              (foldl (day_step day_choice) ([], []) es).1
              (foldl (day_step day_choice) ([], []) es).2
              (foldl (gender_step Person_ne gender_title) []
                 (map entry_people es))
              (2 * Z.of_nat (length (matches_by_person Person_ne
                                       (map entry_people es))))
              (Z.of_nat (length rows)
               - 2 * Z.of_nat (length (matches_by_person Person_ne
                                         (map entry_people es))))).
Proof.
  intros ps pms Hscored Hall.
  destruct (MatchMaker_init_Ok build matrix_similarity is_pairing_preferred
              is_pairable rows) as (vps & HF & Hinit).
  assert (pms = build_possible_matches (length ps)) as Hpms
    by (subst ps pms; by rewrite length_map).
  fold ps pms in HF, Hinit.
  destruct (entries_exist ps (selected (out_values out) pms)) as [es Hes].
  { intros pm [_ ?]%list_elem_of_filter. by rewrite <- Hpms. }
  match type of Hinit with
  | _ = Ok (mkMatchMaker _ _ ?p0) => set (p := p0) in *
  end.
  destruct (objective_terms_cases score ps) as [(_ & Ht & _)|[Hns _]]; [|done].
  destruct (solve_run ps p out es) with
    (obj := mkLpObjective (objective_terms score ps) (score_constant score vps))
    as [mean Hrun];
    [by rewrite <- Hpms|by rewrite <- Hpms| |reflexivity| | |].
  { destruct Hscored as (pm & p1 & p2 & Hpm & _). intros Hnil.
    rewrite Hnil in Hpm. cbn in Hpm. by apply elem_of_nil in Hpm. }
  { cbn [o_terms]. rewrite Ht. by apply score_terms_scored. }
  { cbn [o_terms]. rewrite Ht.
    intros v c (pm & _ & _ & -> & Hpm & _)%elem_of_score_terms. eauto. }
  eexists _, es, mean. split; [exact Hinit|]. split; [done|].
  rewrite Hrun. subst ps. by rewrite length_map.
Qed.

(** What [log_matches] prints for a roster once the solver has given every
    variable a value; [log_stats] is its last step. *)
Lemma log_matches_report (rows : list Row) (out : SolverOutput) :
  let ps := map build rows in
  let pms := build_possible_matches (length ps) in
  (∀ pm, pm ∈ pms → is_Some (out_values out !! pm)) →
  ∃ p es,
    init rows = Ok (mkMatchMaker ps (MatchTracker_init ps) p)
    ∧ Forall2 (entry_of ps) (selected (out_values out) pms) es
    ∧ get_matches
        (match_tracker (solver_run (mkMatchMaker ps (MatchTracker_init ps) p) out))
      = Ok (map entry_people es)
    ∧ log_stats Person_ne gender_title
        (solver_run (mkMatchMaker ps (MatchTracker_init ps) p) out)
      = Ok (foldl (gender_step Person_ne gender_title) [] (map entry_people es))
    ∧ log_matches Person_ne day_choice gender_title
        (solver_run (mkMatchMaker ps (MatchTracker_init ps) p) out)
      = Ok ((foldl (day_step day_choice) ([], []) es).1,
            (foldl (day_step day_choice) ([], []) es).2,
            foldl (gender_step Person_ne gender_title) [] (map entry_people es)).
Proof.
  intros ps pms Hall.
  destruct (MatchMaker_init_Ok build matrix_similarity is_pairing_preferred
              is_pairable rows) as (vps & HF & Hinit).
  fold ps in Hinit.
  destruct (entries_exist ps (selected (out_values out) pms)) as [es Hes].
  { by intros pm [_ ?]%list_elem_of_filter. }
  eexists _, es. split; [exact Hinit|]. split; [exact Hes|].
  split_and!.
  - by apply get_matches_run.
  - by apply log_stats_run.
  - by apply log_matches_run.
Qed.

(** Where no candidate pair has a score, [solve] raises [TypeError] at the
    mean score, whatever the solver returned. *)
Lemma solve_unscored (rows : list Row) (out : SolverOutput) :
  ¬ scored score (map build rows) →
  ∃ mm, init rows = Ok mm ∧ run mm out = Raise TypeError.
Proof.
  intros Hns.
  destruct (MatchMaker_init_Ok build matrix_similarity is_pairing_preferred
              is_pairable rows) as (vps & _ & Hinit).
  eexists. split; [exact Hinit|]. unfold solve.
  by rewrite mean_score_unscored.
Qed.
End Solve.

Section Claims_on_runs.
Context {Person Row : Type}.
Variable build : Row → Person.
Variable matrix_similarity : Person → Person → float.
Variable is_pairing_preferred : Person → Person → float.
Variable is_pairable : Person → Person → Z.
Variable Person_ne : Person → Person → bool.
Variable day_choice : Person → string.
Variable gender_title : Person → string.

Local Abbreviation init := (MatchMaker_init build matrix_similarity
                              is_pairing_preferred is_pairable).
Local Abbreviation run := (solve matrix_similarity Person_ne day_choice
                             gender_title).
Local Abbreviation score := (score_of matrix_similarity is_pairing_preferred).

(** The status the solver returns reaches the status line and nothing
    else. *)
Lemma solve_status_irrelevant (mm : MatchMaker Person) (st st' : LpStatus)
    (sol : gmap tuple Z) :
  run mm (mkSolverOutput st sol)
  = match run mm (mkSolverOutput st' sol) with
    | Ok r => Ok (with_status (LpStatus_name st) r)
    | Raise e => Raise e
    end.
Proof.
  unfold solve.
  change (mean_score (solver_run mm (mkSolverOutput st sol)))
    with (mean_score (solver_run mm (mkSolverOutput st' sol))).
  destruct (mean_score _) as [mean|e]; [|done]. cbn [mbind result_bind].
  change (match_tracker (solver_run mm (mkSolverOutput st sol)))
    with (match_tracker (solver_run mm (mkSolverOutput st' sol))).
  destruct (get_matches _) as [ms|e]; [|done]. cbn [mbind result_bind].
  destruct (foldl _ _ ms) as [scores num_matches].
  change (log_matches Person_ne day_choice gender_title
            (solver_run mm (mkSolverOutput st sol)))
    with (log_matches Person_ne day_choice gender_title
            (solver_run mm (mkSolverOutput st' sol))).
  destruct (log_matches _ _ _ _) as [[[d u] n]|e]; done.
Qed.

(** C5, as the code has it. [solve] logs the status and goes on, to the
    mean score and then to the extraction, whatever the status is: what a run
    does under one status, raise or report, it does under every other, the
    status line of the report apart; and on a roster with a scored pair
    whose variables all have a value the report is produced. *)
Theorem solve_ignores_status (rows : list Row) (out : SolverOutput)
    (st : LpStatus) :
  ∃ mm,
    init rows = Ok mm
    ∧ run mm (mkSolverOutput st (out_values out))
      = match run mm out with
        | Ok r => Ok (with_status (LpStatus_name st) r)
        | Raise e => Raise e
        end
    ∧ (scored score (mm_persons mm) →
       (∀ pm, pm ∈ possible_matches (match_tracker mm) →
              is_Some (out_values out !! pm)) →
       ∃ r, run mm out = Ok r
            ∧ r_status r = LpStatus_name (out_status out)).
Proof.
  destruct (MatchMaker_init_Ok build matrix_similarity is_pairing_preferred
              is_pairable rows) as (vps & _ & Hinit).
  eexists. split; [exact Hinit|]. split.
  - destruct out as [st0 sol]. apply solve_status_irrelevant.
  - cbn [match_tracker possible_matches MatchTracker_init mm_persons].
    rewrite length_map. intros Hscored Hall.
    destruct (solve_report build matrix_similarity is_pairing_preferred
                is_pairable Person_ne day_choice gender_title rows out
                Hscored Hall)
      as (mm & es & mean & Hinit' & _ & Hrun).
    rewrite Hinit in Hinit'. injection Hinit' as <-.
    eexists. split; [exact Hrun|done].
Qed.

(** C6, as the code has it. The extractor selects exactly the candidate
    pairs whose variable has a value above 0 and checks nothing about
    them: once every variable has a value it returns that selection, and
    [solve], on a roster with a scored pair, its report, whether or not each
    participant lies in exactly one selected pair. *)
Theorem extraction_unchecked (rows : list Row) (out : SolverOutput) :
  ∃ mm,
    init rows = Ok mm
    ∧ ((∀ pm, pm ∈ possible_matches (match_tracker mm) →
              is_Some (out_values out !! pm)) →
       get_true_possible_matches (match_tracker (solver_run mm out))
       = Ok (filter (λ pm, (0 < value_of (out_values out) pm)%Z)
               (possible_matches (match_tracker mm)))
       ∧ (scored score (mm_persons mm) → ∃ r, run mm out = Ok r)).
Proof.
  destruct (MatchMaker_init_Ok build matrix_similarity is_pairing_preferred
              is_pairable rows) as (vps & _ & Hinit).
  eexists. split; [exact Hinit|].
  cbn [match_tracker possible_matches MatchTracker_init mm_persons].
  intros Hall. split.
  - by apply get_true_possible_matches_assigned.
  - rewrite length_map in Hall. intros Hscored.
    destruct (solve_report build matrix_similarity is_pairing_preferred
                is_pairable Person_ne day_choice gender_title rows out
                Hscored Hall)
      as (mm & es & mean & Hinit' & _ & Hrun).
    rewrite Hinit in Hinit'. injection Hinit' as <-. eauto.
Qed.

(** C7, as the code has it. [MatchMaker.__init__] checks nothing about the
    size of the roster: for every roster, one of fewer than 2 participants
    too, it builds the model, with [N (N + 1) / 2] variables, an objective,
    [N] coverage constraints and [N (N + 1) / 2] eligibility constraints. *)
Theorem construction_unguarded (rows : list Row) :
  let N := length rows in
  ∃ mm obj coverage eligibility,
    init rows = Ok mm
    ∧ length (mm_persons mm) = N
    ∧ length (possible_matches (match_tracker mm)) = N * (N + 1) / 2
    ∧ (∀ pm, pm ∈ possible_matches (match_tracker mm) →
             is_Some (variables (match_tracker mm) !! pm))
    ∧ objective (prob mm) = Some obj
    ∧ constraints (prob mm) = coverage ++ eligibility
    ∧ length coverage = N
    ∧ (∀ c, c ∈ coverage → c_sense c = LpConstraintEQ ∧ c_rhs c = 1%Q)
    ∧ length eligibility = N * (N + 1) / 2
    ∧ (∀ c, c ∈ eligibility →
            c_sense c = LpConstraintLE
            ∧ ∃ pm, pm ∈ possible_matches (match_tracker mm)
                    ∧ c_expr c = [(pm, 1%Q)]).
Proof.
  intros N.
  destruct (MatchMaker_init_Ok build matrix_similarity is_pairing_preferred
              is_pairable rows) as (vps & HF & Hinit).
  eexists _, _, _, _. split; [exact Hinit|].
  cbn [match_tracker possible_matches MatchTracker_init prob objective
       constraints mm_persons].
  pose proof (Forall2_length _ _ _ HF) as Hlen.
  rewrite length_build_possible_matches in Hlen. fold N in Hlen.
  split_and!.
  - by rewrite length_map.
  - by rewrite length_map, length_build_possible_matches.
  - intros pm Hpm. rewrite lookup_variables_init, decide_True; eauto.
  - reflexivity.
  - reflexivity.
  - by rewrite length_map, length_seq.
  - by intros c (idx & -> & _)%list_elem_of_fmap.
  - by rewrite length_map.
  - intros c ([[v p1] p2] & -> & [n Hn]%list_elem_of_lookup)%list_elem_of_fmap.
    split; [done|].
    destruct (Forall2_lookup_r _ _ _ _ _ HF Hn) as (pm & Hpm & -> & _).
    exists pm. split; [|done]. rewrite length_map.
    by eapply list_elem_of_lookup_2.
Qed.

Lemma solved_run_assigned (ps : list Person) (p : LpProblem)
    (out : SolverOutput) :
  solved_run (mkMatchMaker ps (MatchTracker_init ps) p) out →
  ∀ pm, pm ∈ build_possible_matches (length ps) →
        is_Some (out_values out !! pm).
Proof.
  unfold solved_run. cbn [prob match_tracker]. intros Hrun pm Hpm.
  destruct (solved_store_values ps (out_values out) p pm Hrun Hpm) as [-> _].
  eauto.
Qed.

(** Where [!=] on the persons of the roster tells the indices apart, the
    two tests of a real match agree. *)
Lemma matches_by_index_person (ps : list Person) (sel : list tuple)
    (es : list (nat * nat * Person * Person)) :
  (∀ i j p1 p2, ps !! i = Some p1 → ps !! j = Some p2 →
                (Person_ne p1 p2 = true ↔ i ≠ j)) →
  Forall2 (entry_of ps) sel es →
  length (matches_by_index es)
  = length (matches_by_person Person_ne (map entry_people es)).
Proof.
  intros Hagree HF.
  induction HF as [|pm [[[i j] p1] p2] sel es (-> & Hp1 & Hp2) _ IH]; [done|].
  unfold matches_by_index, matches_by_person in *. cbn [map].
  rewrite !filter_cons. cbn [entry_people fst snd].
  pose proof (Hagree i j p1 p2 Hp1 Hp2) as Hij.
  destruct (decide (i ≠ j)) as [Hne|Heq].
  - rewrite decide_True by by apply Hij. cbn [length]. by rewrite IH.
  - rewrite decide_False by (by intros ?%Hij). done.
Qed.


Lemma get_day_or_either_cases (d1 d2 : string) :
  let k := get_day_or_either d1 d2 in
  (d1 = d2 → k = d1)
  ∧ (d1 ≠ d2 → d1 = "Either" → k = d2)
  ∧ (d1 ≠ d2 → d2 = "Either" → k = d1)
  ∧ (d1 ≠ "Either" → d2 ≠ "Either" → d1 ≠ d2 → k = d1).
Proof.
  unfold get_day_or_either.
  destruct (String.eqb_spec d1 "Either") as [->|Hd1]; cbn; split_and!;
    try done; intros; congruence.
Qed.

(** C9. A selected pair of two different participants is listed in the day
    breakdown of [log_matches] under one day: the day both chose when they
    agree, else the day of the side that did not choose "Either", and the
    first side's when both chose a day and disagree. *)
Theorem day_breakdown_key (rows : list Row) (out : SolverOutput) :
  ∃ mm,
    init rows = Ok mm
    ∧ ((∀ pm, pm ∈ possible_matches (match_tracker mm) →
              is_Some (out_values out !! pm)) →
       ∃ day_dict unmatched num sel,
         log_matches Person_ne day_choice gender_title (solver_run mm out)
         = Ok (day_dict, unmatched, num)
         ∧ get_true_possible_matches (match_tracker (solver_run mm out)) = Ok sel
         ∧ ∀ i j p1 p2,
             [i; j] ∈ sel → i ≠ j →
             mm_persons mm !! i = Some p1 → mm_persons mm !! j = Some p2 →
             let d1 := day_choice p1 in
             let d2 := day_choice p2 in
             ∃ k,
               (∃ grp, (k, grp) ∈ day_dict ∧ (i, j) ∈ grp)
               ∧ (∀ k' grp', (k', grp') ∈ day_dict → (i, j) ∈ grp' → k' = k)
               ∧ (d1 = d2 → k = d1)
               ∧ (d1 ≠ d2 → d1 = "Either" → k = d2)
               ∧ (d1 ≠ d2 → d2 = "Either" → k = d1)
               ∧ (d1 ≠ "Either" → d2 ≠ "Either" → d1 ≠ d2 → k = d1)).
Proof.
  destruct (MatchMaker_init_Ok build matrix_similarity is_pairing_preferred
              is_pairable rows) as (vps & _ & Hinit).
  eexists. split; [exact Hinit|].
  cbn [match_tracker possible_matches MatchTracker_init mm_persons].
  intros Hall.
  destruct (log_matches_report build matrix_similarity is_pairing_preferred
              is_pairable Person_ne day_choice gender_title rows out Hall)
    as (p & es & Hinit' & Hes & _ & _ & Hlog).
  rewrite Hinit in Hinit'. injection Hinit' as <-.
  eexists _, _, _, _. split; [exact Hlog|]. split.
  { rewrite solver_run_tracker. by apply get_true_possible_matches_assigned. }
  intros i j p1 p2 [n Hn]%list_elem_of_lookup Hij Hp1 Hp2.
  destruct (Forall2_lookup_l _ _ _ _ _ Hes Hn)
    as ([[[i' j'] q1] q2] & He & Heq & Hq1 & Hq2).
  simplify_eq.
  exists (get_day_or_either (day_choice p1) (day_choice p2)). split_and!.
  - apply day_step_groups. right. exists i', j', p1, p2.
    split; [by eapply list_elem_of_lookup_2|done].
  - intros k' grp' Hin Hy.
    destruct (proj1 (day_step_groups day_choice ([], []) es k' (i', j')))
      as [(? & []%elem_of_nil & _)|(i2 & j2 & q1 & q2 & [m Hm]%list_elem_of_lookup
                                     & _ & ? & ->)]; [by exists grp'|].
    destruct (Forall2_lookup_r _ _ _ _ _ Hes Hm) as (pm & _ & _ & Hq1 & Hq2).
    by simplify_eq.
  - apply get_day_or_either_cases.
  - apply get_day_or_either_cases.
  - apply get_day_or_either_cases.
  - apply get_day_or_either_cases.
Qed.

Lemma get_true_possible_matches_unassigned (t : MatchTracker Person) :
  (∀ pm, pm ∈ possible_matches t → is_Some (variables t !! pm)) →
  (∃ pm v, pm ∈ possible_matches t ∧ variables t !! pm = Some v
           ∧ varValue v = None) →
  get_true_possible_matches t = Raise TypeError.
Proof.
  intros Hvars (pm & v & Hpm & Hv & Hnone). apply filterM_Raise.
  - intros k [w Hw]%Hvars. unfold varValue_positive. rewrite Hw.
    destruct (varValue w); eauto.
  - exists pm. split; [done|]. unfold varValue_positive. by rewrite Hv, Hnone.
Qed.

(** C10. Extraction needs every variable to hold a number: before a solve,
    and after one that left a variable without a value, the comparison
    [varValue > 0] meets [None] and [get_true_possible_matches],
    [get_matches] and [get_true_variables] raise [TypeError]; none returns
    a selection. *)
Theorem extraction_needs_values (rows : list Row) (out : SolverOutput) :
  ∃ mm,
    init rows = Ok mm
    ∧ (rows ≠ [] →
       get_true_possible_matches (match_tracker mm) = Raise TypeError
       ∧ get_matches (match_tracker mm) = Raise TypeError
       ∧ get_true_variables (match_tracker mm) = Raise TypeError)
    ∧ ((∃ pm, pm ∈ possible_matches (match_tracker mm)
              ∧ out_values out !! pm = None) →
       let t := match_tracker (solver_run mm out) in
       get_true_possible_matches t = Raise TypeError
       ∧ get_matches t = Raise TypeError
       ∧ get_true_variables t = Raise TypeError).
Proof.
  destruct (MatchMaker_init_Ok build matrix_similarity is_pairing_preferred
              is_pairable rows) as (vps & _ & Hinit).
  eexists. split; [exact Hinit|].
  cbn [match_tracker]. split.
  - intros Hne.
    assert (get_true_possible_matches (MatchTracker_init (map build rows))
            = Raise TypeError) as Hraise.
    { apply get_true_possible_matches_unassigned.
      - intros pm Hpm. cbn [possible_matches MatchTracker_init] in Hpm.
        rewrite lookup_variables_init, decide_True; eauto.
      - exists [0; 0], (mkLpVariable 0 1 LpInteger None).
        assert ([0; 0] ∈ build_possible_matches (length (map build rows))).
        { apply elem_of_build_possible_matches. exists 0, 0. split; [done|].
          right. split; [done|]. rewrite length_map. destruct rows; [done|].
          cbn. lia. }
        split_and!; [done| |done].
        by rewrite lookup_variables_init, decide_True. }
    unfold get_matches, get_true_variables. by rewrite Hraise.
  - intros (pm & Hpm & Hnone). rewrite solver_run_tracker.
    cbn [possible_matches MatchTracker_init] in Hpm.
    assert (get_true_possible_matches
              (mkMatchTracker (map build rows)
                 (build_possible_matches (length (map build rows)))
                 (write_values (out_values out)
                    (variables (MatchTracker_init (map build rows)))))
            = Raise TypeError) as Hraise.
    { apply get_true_possible_matches_unassigned.
      - intros k Hk. cbn [possible_matches variables] in *.
        rewrite lookup_solved_store; eauto.
      - exists pm, (mkLpVariable 0 1 LpInteger None).
        cbn [possible_matches variables].
        split_and!; [done| |done].
        by rewrite lookup_solved_store, Hnone. }
    unfold get_matches, get_true_variables. by rewrite Hraise.
Qed.
End Claims_on_runs.

Lemma demo_init_Ok :
  ∃ mm, demo_init demo_rows = Ok mm.
Proof. eexists. vm_compute. reflexivity. Qed.

(** Ann with Bob has a score, so the objective of the roster has a term. *)
Lemma demo_scored :
  scored (score_of demo_similarity demo_preferred) demo_rows.
Proof.
  exists [0; 1], (mkParticipant "ann" "Mon" "Woman"),
    (mkParticipant "bob" "Either" "Man").
  split_and!; [by left|by exists 0, 1|vm_compute; reflexivity].
Qed.



(** C1 on the roster: Bob lies in exactly one selected pair. *)
Lemma coverage_exactly_one_witness :
  ∃ mm sel,
    demo_init demo_rows = Ok mm
    ∧ solved_run mm demo_out
    ∧ get_true_possible_matches (match_tracker (solver_run mm demo_out)) = Ok sel
    ∧ length (filter (λ pm, 1 ∈ pm) sel) = 1.
Proof.
  destruct (coverage_exactly_one id demo_similarity demo_preferred demo_pairable
              demo_rows) as (mm & Hinit & _ & Hrun).
  assert (solved_run mm demo_out) as Hsolved.
  { vm_compute in Hinit. injection Hinit as <-. vm_compute. reflexivity. }
  destruct (Hrun demo_out Hsolved) as (sel & Hsel & Hone).
  exists mm, sel. split_and!; [exact Hinit|exact Hsolved|exact Hsel|].
  apply Hone. cbn. lia.
Defined.

(** C2 on the roster: Ann with Bob is a key, and only in that order. *)
Lemma candidate_pair_space_witness :
  let t := MatchTracker_init demo_rows in
  [0; 1] ∈ possible_matches t
  ∧ ¬ (is_Some (variables t !! [0; 1]) ∧ is_Some (variables t !! [1; 0])).
Proof.
  destruct (candidate_pair_space demo_rows) as (Hmem & _ & _ & _ & _ & Hsym).
  split.
  - apply Hmem. exists 0, 1. split; [done|]. left. cbn. lia.
  - apply Hsym. lia.
Defined.

(** C3 on the roster: Bob and Cy are not pairable, and not selected. *)
Lemma eligibility_excludes_witness :
  ∃ mm sel,
    demo_init demo_rows = Ok mm
    ∧ solved_run mm demo_out
    ∧ get_true_possible_matches (match_tracker (solver_run mm demo_out)) = Ok sel
    ∧ [1; 2] ∉ sel.
Proof.
  destruct (eligibility_excludes id demo_similarity demo_preferred demo_pairable
              demo_rows) as (mm & Hinit & _ & Hrun).
  assert (solved_run mm demo_out) as Hsolved
    by by_model Hinit ltac:(vm_compute; reflexivity).
  destruct (Hrun demo_out Hsolved) as (sel & Hsel & Hexcl).
  exists mm, sel. split_and!; [exact Hinit|exact Hsolved|exact Hsel|].
  eapply (Hexcl [1; 2] (mkParticipant "bob" "Either" "Man")
            (mkParticipant "cy" "Tue" "Man")); [|reflexivity].
  exists 1, 2. split; [reflexivity|].
  by_model Hinit ltac:(split; vm_compute; reflexivity).
Defined.

(** C5 as amended, on the roster: the report carries the solver's status. *)
Lemma solve_ignores_status_witness :
  ∃ mm r,
    demo_init demo_rows = Ok mm
    ∧ demo_solve mm demo_out = Ok r
    ∧ r_status r = "Optimal".
Proof.
  destruct (solve_ignores_status id demo_similarity demo_preferred demo_pairable
              demo_ne p_day p_gender demo_rows demo_out LpStatusOptimal)
    as (mm & Hinit & _ & Hrun).
  destruct Hrun as (r & Hr & Hstatus);
    [by_model Hinit ltac:(exact demo_scored)
    |by_model Hinit ltac:(all_assigned)|].
  exists mm, r. split_and!; [exact Hinit|exact Hr|exact Hstatus].
Defined.

(** C5 as stated fails: Cy is pairable with nobody, so the problem has no
    feasible assignment; the solver reports it infeasible, and [solve] still
    extracts a matching from the values left in the variables and reports
    it. *)
Lemma solve_reports_infeasible_run :
  ∃ mm r,
    MatchMaker_init id demo_similarity demo_preferred cy_unpairable demo_rows
    = Ok mm
    ∧ (∀ out, ¬ solved_run mm out)
    ∧ demo_solve mm (mkSolverOutput LpStatusInfeasible demo_values_no_cy) = Ok r
    ∧ r_status r = "Infeasible"
    ∧ r_days r = [("Mon", [(0, 1)])]
    ∧ r_num_matches r = 2%Z.
Proof.
  destruct (uncovered_infeasible id demo_similarity demo_preferred cy_unpairable
              demo_rows 2) as (mm & Hinit & Hinf).
  { cbn. lia. }
  { intros pm p1 p2 _ Hin (i & j & -> & Hp1 & Hp2).
    assert (i = 2 ∨ j = 2) as Hij.
    { apply elem_of_cons in Hin as [->|Hin]; [by left|].
      apply list_elem_of_singleton in Hin as ->. by right. }
    unfold cy_unpairable.
    destruct Hij as [->| ->]; cbn in Hp1, Hp2; simplify_eq; cbn; [done|].
    by rewrite orb_true_r. }
  exists mm. by_model Hinit ltac:(idtac).
  eexists. split; [reflexivity|]. split; [exact Hinf|].
  split; [vm_compute; reflexivity|]. done.
Qed.

(** C6 as amended, on the roster: a selection is returned as it is. *)
Lemma extraction_unchecked_witness :
  ∃ mm,
    demo_init demo_rows = Ok mm
    ∧ get_true_possible_matches
        (match_tracker
           (solver_run mm (mkSolverOutput LpStatusOptimal demo_values_twice)))
      = Ok (filter (λ pm, (0 < value_of demo_values_twice pm)%Z)
              (possible_matches (match_tracker mm))).
Proof.
  destruct (extraction_unchecked id demo_similarity demo_preferred demo_pairable
              demo_ne p_day p_gender demo_rows
              (mkSolverOutput LpStatusOptimal demo_values_twice))
    as (mm & Hinit & Hsel).
  destruct Hsel as [Hsel _]; [by_model Hinit ltac:(all_assigned)|].
  exists mm. split; [exact Hinit|exact Hsel].
Defined.

(** C6 as stated fails: nobody is pairable, so the problem has no feasible
    assignment and the values left in the variables are no matching: Ann
    lies in two selected pairs. The selection is returned and reported all
    the same. *)
Lemma inconsistent_selection_accepted :
  let out := mkSolverOutput LpStatusInfeasible demo_values_twice in
  ∃ mm sel r,
    MatchMaker_init id demo_similarity demo_preferred never_pairable demo_rows
    = Ok mm
    ∧ (∀ out', ¬ solved_run mm out')
    ∧ get_true_possible_matches (match_tracker (solver_run mm out)) = Ok sel
    ∧ length (filter (λ pm, 0 ∈ pm) sel) = 2
    ∧ length (filter (λ pm, 2 ∈ pm) sel) = 1
    ∧ demo_solve mm out = Ok r
    ∧ r_num_matches r = 4%Z
    ∧ r_not_matched r = (-1)%Z.
Proof.
  intros out.
  destruct (uncovered_infeasible id demo_similarity demo_preferred never_pairable
              demo_rows 0) as (mm & Hinit & Hinf).
  { cbn. lia. }
  { intros pm p1 p2 _ _ _. unfold never_pairable. lia. }
  exists mm. by_model Hinit ltac:(idtac).
  eexists _, _. split; [reflexivity|]. split; [exact Hinf|].
  split; [vm_compute; reflexivity|].
  split; [vm_compute; reflexivity|].
  split; [vm_compute; reflexivity|].
  split; [vm_compute; reflexivity|]. done.
Qed.

(** C7 as stated fails: a roster of one participant gets its model. *)
Lemma single_participant_model_built :
  length solo_rows < 2
  ∧ ∃ mm,
      demo_init solo_rows = Ok mm
      ∧ possible_matches (match_tracker mm) = [[0; 0]]
      ∧ is_Some (variables (match_tracker mm) !! [0; 0])
      ∧ is_Some (objective (prob mm))
      ∧ constraints (prob mm)
        = [mkLpConstraint [([0; 0], 1%Q)] LpConstraintEQ 1%Q;
           mkLpConstraint [([0; 0], 1%Q)] LpConstraintLE 1%Q].
Proof.
  split; [cbn; lia|].
  eexists. split; [vm_compute; reflexivity|].
  split_and!; vm_compute; (reflexivity || eauto).
Qed.



(** C9 on the roster: Ann chose Monday and Bob either day, so the pair is
    listed under Monday. *)
Lemma day_breakdown_key_witness :
  ∃ mm day_dict unmatched num grp,
    demo_init demo_rows = Ok mm
    ∧ log_matches demo_ne p_day p_gender (solver_run mm demo_out)
      = Ok (day_dict, unmatched, num)
    ∧ ("Mon", grp) ∈ day_dict
    ∧ (0, 1) ∈ grp.
Proof.
  destruct (day_breakdown_key id demo_similarity demo_preferred demo_pairable
              demo_ne p_day p_gender demo_rows demo_out)
    as (mm & Hinit & Hrun).
  destruct Hrun as (day_dict & unmatched & num & sel & Hlog & Hsel & Hkey);
    [by_model Hinit ltac:(all_assigned)|].
  destruct (Hkey 0 1 (mkParticipant "ann" "Mon" "Woman")
              (mkParticipant "bob" "Either" "Man"))
    as (k & (grp & Hgrp & Hin) & _ & _ & _ & Hmon & _).
  - by_model Hinit ltac:(idtac). vm_compute in Hsel. injection Hsel as <-.
    by left.
  - lia.
  - by_model Hinit ltac:(vm_compute; reflexivity).
  - by_model Hinit ltac:(vm_compute; reflexivity).
  - cbn [p_day] in Hmon. rewrite Hmon in Hgrp by done.
    exists mm, day_dict, unmatched, num, grp.
    split_and!; [exact Hinit|exact Hlog|exact Hgrp|exact Hin].
Defined.

(** C10 on the roster: extraction raises before the solve, and after a
    solve that left Cy's self-pair without a value. *)
Lemma extraction_needs_values_witness :
  ∃ mm,
    demo_init demo_rows = Ok mm
    ∧ get_true_possible_matches (match_tracker mm) = Raise TypeError
    ∧ get_matches
        (match_tracker
           (solver_run mm (mkSolverOutput LpStatusOptimal demo_values_partial)))
      = Raise TypeError.
Proof.
  destruct (extraction_needs_values id demo_similarity demo_preferred
              demo_pairable demo_rows
              (mkSolverOutput LpStatusOptimal demo_values_partial))
    as (mm & Hinit & Hbefore & Hafter).
  destruct Hbefore as (Hsel & _); [done|].
  destruct Hafter as (_ & Hmatches & _).
  { exists [2; 2]. by_model Hinit ltac:(split; vm_compute; [|reflexivity]).
    do 5 right. by left. }
  exists mm. split_and!; [exact Hinit|exact Hsel|exact Hmatches].
Defined.

(** * Further properties of the code *)

(** ** The lookups of [MatchTracker] *)

(** The candidate pairs touching a valid index are the [N] pairs that join it
    to each index of the roster, itself included. *)
Lemma touching_Permutation (n idx : nat) :
  idx < n →
  filter (λ pm, idx ∈ pm) (build_possible_matches n)
  ≡ₚ map (λ m, if decide (m < idx) then [m; idx] else [idx; m]) (seq 0 n).
Proof.
  intros Hidx. apply NoDup_Permutation.
  - apply NoDup_filter, NoDup_build_possible_matches.
  - apply NoDup_fmap_2_strong; [|apply NoDup_seq].
    intros x y _ _. repeat case_decide; intros ?; simplify_eq; lia.
  - intros pm. rewrite list_elem_of_filter, elem_of_build_possible_matches,
      list_elem_of_fmap. split.
    + intros (Hin & i & j & -> & Hij).
      apply elem_of_cons in Hin as [->|Hin].
      * exists j. rewrite elem_of_seq.
        rewrite decide_False by lia. split; [done|lia].
      * apply list_elem_of_singleton in Hin as ->.
        exists i. rewrite elem_of_seq. split; [|lia].
        case_decide; [done|]. by replace i with j by lia.
    + intros (m & -> & Hm%elem_of_seq). case_decide.
      * split; [by right; left|]. exists m, idx. split; [done|]. left. lia.
      * split; [by left|]. exists idx, m. split; [done|].
        destruct (decide (idx = m)) as [->|?]; [right|left]; lia.
Qed.

Lemma touching_out_of_range (n idx : nat) :
  n ≤ idx → filter (λ pm, idx ∈ pm) (build_possible_matches n) = [].
Proof.
  intros Hidx. apply filter_drop_all, Forall_forall.
  intros pm (i & j & -> & Hij)%elem_of_build_possible_matches Hin.
  apply elem_of_cons in Hin as [->|Hin]; [lia|].
  apply list_elem_of_singleton in Hin as ->. lia.
Qed.

(** X1. [get_variables_for_person] never raises on the tracker that
    [MatchTracker.__init__] builds. For an index of the roster it returns [N]
    different variables, each with the index in its key, the self-pair among
    them; for an index outside the roster it returns the empty list. *)
Theorem variables_for_person {Person} (persons : list Person) (idx : nat) :
  ∃ vs,
    get_variables_for_person (MatchTracker_init persons) idx = Ok vs
    ∧ (∀ v, v ∈ vs → idx ∈ v ∧ v ∈ possible_matches (MatchTracker_init persons))
    ∧ NoDup vs
    ∧ (idx < length persons → length vs = length persons ∧ [idx; idx] ∈ vs)
    ∧ (length persons ≤ idx → vs = []).
Proof.
  eexists. split; [apply get_variables_for_person_init|]. split_and!.
  - by intros v ?%list_elem_of_filter.
  - apply NoDup_filter, NoDup_build_possible_matches.
  - intros Hidx. split.
    + by rewrite (touching_Permutation _ _ Hidx), length_map, length_seq.
    + apply list_elem_of_filter. split; [by left|].
      apply elem_of_build_possible_matches. exists idx, idx. split; [done|].
      by right.
  - apply touching_out_of_range.
Qed.

(** X2. [get_variables_to_people] never raises on the tracker that
    [MatchTracker.__init__] builds: it returns one triple per candidate pair,
    in the order of [possible_matches], with the persons at the two indices
    of the pair, the same person twice for a self-pair. *)
Theorem variables_to_people {Person} (persons : list Person) :
  ∃ vps,
    get_variables_to_people (MatchTracker_init persons) = Ok vps
    ∧ vps.*1.*1 = possible_matches (MatchTracker_init persons)
    ∧ (∀ v p1 p2, (v, p1, p2) ∈ vps → pair_people persons v p1 p2)
    ∧ (∀ idx p, persons !! idx = Some p → ([idx; idx], p, p) ∈ vps).
Proof.
  destruct (get_variables_to_people_init persons) as (vps & Hvps & HF).
  exists vps. split; [exact Hvps|].
  cbn [possible_matches MatchTracker_init]. split_and!.
  - clear Hvps. induction HF as [|pm [[v p1] p2] l vps [-> _] _ IH]; [done|].
    cbn. by rewrite IH.
  - intros v p1 p2 [n Hn]%list_elem_of_lookup.
    destruct (Forall2_lookup_r _ _ _ _ _ HF Hn) as (pm & _ & -> & Hpp). done.
  - intros idx p Hp.
    assert ([idx; idx] ∈ build_possible_matches (length persons))
      as [n Hn]%list_elem_of_lookup.
    { apply elem_of_build_possible_matches. exists idx, idx. split; [done|].
      right. split; [done|]. by eapply lookup_lt_Some. }
    destruct (Forall2_lookup_l _ _ _ _ _ HF Hn)
      as ([[v p1] p2] & Hv & -> & i & j & ? & Hp1 & Hp2).
    simplify_eq. by eapply list_elem_of_lookup_2.
Qed.

(** ** The model as a whole *)

Section Whole_model.
Context {Person Row : Type}.
Variable build : Row → Person.
Variable matrix_similarity : Person → Person → float.
Variable is_pairing_preferred : Person → Person → float.
Variable is_pairable : Person → Person → Z.

Local Abbreviation init := (MatchMaker_init build matrix_similarity
                              is_pairing_preferred is_pairable).

(** The problem of a roster: its constraints are the coverage constraints of
    the indices and the eligibility constraints of the candidate pairs, and
    its objective has the terms of the scored pairs. *)
Lemma model_facts (rows : list Row) :
  let ps := map build rows in
  let pms := build_possible_matches (length ps) in
  ∃ p obj,
    init rows = Ok (mkMatchMaker ps (MatchTracker_init ps) p)
    ∧ objective p = Some obj
    ∧ o_terms obj
      = objective_terms (score_of matrix_similarity is_pairing_preferred) ps
    ∧ (∀ idx, idx < length ps → coverage_constraint pms idx ∈ constraints p)
    ∧ (∀ pm, pm ∈ pms →
         ∃ p1 p2, pair_people ps pm p1 p2
                  ∧ eligibility_constraint pm (is_pairable p1 p2) ∈ constraints p)
    ∧ (∀ c, c ∈ constraints p →
         (∃ idx, idx < length ps ∧ c = coverage_constraint pms idx)
         ∨ (∃ pm p1 p2, pm ∈ pms ∧ pair_people ps pm p1 p2
                        ∧ c = eligibility_constraint pm (is_pairable p1 p2))).
Proof.
  intros ps pms.
  destruct (MatchMaker_init_Ok build matrix_similarity is_pairing_preferred
              is_pairable rows) as (vps & HF & Hinit).
  assert (length rows = length ps) as Hlen by (subst ps; by rewrite length_map).
  rewrite Hlen in HF, Hinit. fold ps pms in HF, Hinit.
  eexists _, _. split; [exact Hinit|]. cbn [objective constraints].
  split; [reflexivity|]. split_and!.
  - reflexivity.
  - intros idx Hidx. apply elem_of_app. left. apply list_elem_of_fmap.
    exists idx. split; [done|]. apply elem_of_seq. lia.
  - intros pm [n Hn]%list_elem_of_lookup.
    destruct (Forall2_lookup_l _ _ _ _ _ HF Hn) as ([[v p1] p2] & Hv & -> & Hpp).
    exists p1, p2. split; [done|]. apply elem_of_app. right.
    apply list_elem_of_fmap. exists (pm, p1, p2). split; [done|].
    by eapply list_elem_of_lookup_2.
  - intros c [(idx & -> & Hidx%elem_of_seq)%list_elem_of_fmap
             |([[v p1] p2] & -> & [n Hn]%list_elem_of_lookup)%list_elem_of_fmap]%elem_of_app.
    + left. exists idx. split; [lia|done].
    + right. destruct (Forall2_lookup_r _ _ _ _ _ HF Hn) as (pm & Hpm & -> & Hpp).
      exists pm, p1, p2. split_and!; [by eapply list_elem_of_lookup_2|done|done].
Qed.

(** X17. Every constraint of the model has a variable, and its variables
    are candidate pairs with the coefficient 1: the coverage constraint of
    an index holds its self-pair at least, an eligibility constraint its one
    pair. So [writeLP], which adds [__dummy] to a constraint without
    variables, adds it to none. *)
Theorem constraints_have_variables (rows : list Row) :
  ∃ mm,
    init rows = Ok mm
    ∧ ∀ c, c ∈ constraints (prob mm) →
           c_expr c ≠ []
           ∧ ∀ v x, (v, x) ∈ c_expr c →
                    v ∈ possible_matches (match_tracker mm) ∧ x = 1%Q.
Proof.
  destruct (model_facts rows) as (p & obj & Hinit & _ & _ & _ & _ & Hcs).
  eexists. split; [exact Hinit|].
  cbn [prob match_tracker possible_matches MatchTracker_init].
  intros c [(idx & Hidx & ->)|(pm & p1 & p2 & Hpm & _ & ->)]%Hcs.
  - cbn [coverage_constraint c_expr]. split.
    + assert (([idx; idx], 1%Q)
              ∈ map (λ pm, (pm, 1%Q))
                  (filter (λ pm, idx ∈ pm)
                     (build_possible_matches (length (map build rows)))))
        as Hin.
      { apply list_elem_of_fmap. exists [idx; idx]. split; [done|].
        apply list_elem_of_filter. split; [by left|].
        apply elem_of_build_possible_matches. exists idx, idx.
        split; [done|]. by right. }
      intros Hnil. rewrite Hnil in Hin. by apply elem_of_nil in Hin.
    + intros v x (pm & [= -> ->] & [_ Hpm]%list_elem_of_filter)%list_elem_of_fmap.
      done.
  - cbn [eligibility_constraint c_expr]. split; [done|].
    by intros v x [= -> ->]%list_elem_of_singleton.
Qed.
End Whole_model.

(** ** Feasibility of the model *)

Lemma filter_iff_in {A} (P Q : A → Prop) `{!∀ x, Decision (P x)}
    `{!∀ x, Decision (Q x)} (l : list A) :
  (∀ x, x ∈ l → P x ↔ Q x) → filter P l = filter Q l.
Proof.
  induction l as [|x l IH]; intros Hiff; [done|].
  rewrite !filter_cons, IH by (intros; apply Hiff; by right).
  pose proof (Hiff x ltac:(by left)). repeat case_decide; tauto.
Qed.

Lemma fst_graph {A B} (f : A → B) (l : list A) : (map (λ x, (x, f x)) l).*1 = l.
Proof. induction l as [|x l IH]; [done|]. cbn. by rewrite IH. Qed.

Lemma self_value_01 (pm : tuple) : (0 ≤ self_value pm ≤ 1)%Z.
Proof.
  destruct pm as [|i [|j [|? ?]]]; cbn; try lia. destruct (Nat.eqb i j); lia.
Qed.

Lemma lookup_all_unmatched (n : nat) (pm : tuple) :
  pm ∈ build_possible_matches n → all_unmatched n !! pm = Some (self_value pm).
Proof.
  intros Hpm. apply elem_of_list_to_map_1.
  - rewrite fst_graph. apply NoDup_build_possible_matches.
  - apply list_elem_of_fmap. by exists pm.
Qed.

Lemma selected_all_unmatched (n : nat) :
  selected (all_unmatched n) (build_possible_matches n)
  = map (λ idx, [idx; idx]) (seq 0 n).
Proof.
  unfold selected.
  rewrite (filter_iff_in _ (λ pm, (0 < self_value pm)%Z)).
  2:{ intros pm Hpm. unfold value_of. by rewrite lookup_all_unmatched. }
  rewrite build_possible_matches_eq. unfold range.
  rewrite filter_app, filter_drop_all, filter_keep_all; [done| |].
  - apply Forall_forall. intros pm (i & -> & _)%list_elem_of_fmap. cbn.
    by rewrite Nat.eqb_refl.
  - apply Forall_forall. intros pm (i & j & -> & ?)%elem_of_combination_seq_2.
    cbn. destruct (Nat.eqb_spec i j); lia.
Qed.

(** Among the pairs touching an index, the self-pair alone has value 1. *)
Lemma Zsum_self_value (n idx : nat) :
  idx < n →
  Zsum (map self_value (filter (λ pm, idx ∈ pm) (build_possible_matches n))) = 1%Z.
Proof.
  intros Hidx. rewrite Zsum_zero_one by (intros; apply self_value_01).
  assert (filter (λ pm, (0 < self_value pm)%Z)
            (filter (λ pm, idx ∈ pm) (build_possible_matches n))
          ≡ₚ [[idx; idx]]) as ->; [|done].
  apply NoDup_Permutation.
  - apply NoDup_filter, NoDup_filter, NoDup_build_possible_matches.
  - apply NoDup_singleton.
  - intros pm. rewrite !list_elem_of_filter, elem_of_build_possible_matches,
      list_elem_of_singleton. split.
    + intros (Hpos & Hin & i & j & -> & _). cbn in Hpos.
      destruct (Nat.eqb_spec i j) as [->|?]; [|lia].
      apply elem_of_cons in Hin as [->|Hin]; [done|].
      by apply list_elem_of_singleton in Hin as ->.
    + intros ->. cbn. rewrite Nat.eqb_refl. split_and!; [lia|by left|].
      exists idx, idx. split; [done|]. by right.
Qed.

Section Feasibility.
Context {Person Row : Type}.
Variable build : Row → Person.
Variable matrix_similarity : Person → Person → float.
Variable is_pairing_preferred : Person → Person → float.
Variable is_pairable : Person → Person → Z.

Local Abbreviation init := (MatchMaker_init build matrix_similarity
                              is_pairing_preferred is_pairable).

(** X3. Where pairability is never negative and everyone is pairable with
    themselves, the problem that [__init__] builds is feasible: leaving
    everyone unmatched (1 on each self-pair, 0 elsewhere) satisfies every
    bound and every constraint, and the extraction then selects exactly the
    self-pairs. *)
Theorem all_unmatched_feasible (rows : list Row) (st : LpStatus) :
  (∀ p1 p2, p1 ∈ map build rows → p2 ∈ map build rows →
            (0 ≤ is_pairable p1 p2)%Z) →
  (∀ p, p ∈ map build rows → (1 ≤ is_pairable p p)%Z) →
  let out := mkSolverOutput st (all_unmatched (length rows)) in
  ∃ mm,
    init rows = Ok mm
    ∧ solved_run mm out
    ∧ get_true_possible_matches (match_tracker (solver_run mm out))
      = Ok (map (λ idx, [idx; idx]) (seq 0 (length rows))).
Proof.
  intros Hnonneg Hself out. subst out.
  destruct (model_facts build matrix_similarity is_pairing_preferred is_pairable
              rows) as (p & obj & Hinit & _ & _ & _ & _ & Hcs).
  set (ps := map build rows) in *.
  assert (length ps = length rows) as Hlen by (subst ps; by rewrite length_map).
  rewrite <- Hlen. set (sol := all_unmatched (length ps)).
  eexists. split; [exact Hinit|].
  assert (∀ pm, pm ∈ build_possible_matches (length ps) →
                sol !! pm = Some (self_value pm)) as Hsol
    by (intros pm Hpm; by apply lookup_all_unmatched).
  split.
  - unfold solved_run. cbn [prob match_tracker out_values]. apply feasible_intro.
    + intros k v. rewrite lookup_write_values, lookup_variables_init.
      case_decide as Hk; [|done]. intros [= <-]. unfold var_in_domain.
      cbn [varValue lowBound upBound].
      rewrite (Hsol k Hk). apply bool_decide_eq_true. apply self_value_01.
    + intros c [(idx & Hidx & ->)|(pm & p1 & p2 & Hpm & Hpp & ->)]%Hcs.
      * rewrite (coverage_holds_iff ps _ self_value) by done.
        by apply Zsum_self_value.
      * rewrite (eligibility_holds_iff ps _ pm (self_value pm)) by auto.
        destruct Hpp as (i & j & -> & Hp1 & Hp2). cbn.
        destruct (Nat.eqb_spec i j) as [->|_].
        -- simplify_eq. apply Hself. by eapply list_elem_of_lookup_2.
        -- apply Hnonneg; by eapply list_elem_of_lookup_2.
  - rewrite solver_run_tracker. cbn [out_values].
    rewrite get_true_possible_matches_assigned by (intros; rewrite Hsol; eauto).
    subst sol. by rewrite selected_all_unmatched.
Qed.

(** X4. A participant of the roster none of whose candidate pairs, the
    self-pair included, is pairable makes the problem infeasible: no
    assignment within the bounds satisfies the constraints that [__init__]
    builds. *)
Theorem no_eligible_pair_infeasible (rows : list Row) (idx : nat) :
  idx < length rows →
  (∀ pm p1 p2,
     pm ∈ build_possible_matches (length rows) → idx ∈ pm →
     pair_people (map build rows) pm p1 p2 →
     (is_pairable p1 p2 ≤ 0)%Z) →
  ∃ mm,
    init rows = Ok mm
    ∧ possible_matches (match_tracker mm) = build_possible_matches (length rows)
    ∧ ∀ out, ¬ solved_run mm out.
Proof.
  intros Hidx Hnone.
  destruct (uncovered_infeasible build matrix_similarity is_pairing_preferred
              is_pairable rows idx Hidx Hnone) as (mm & Hinit & Hinf).
  exists mm. split; [exact Hinit|]. split; [|exact Hinf].
  destruct (MatchMaker_init_Ok build matrix_similarity is_pairing_preferred
              is_pairable rows) as (vps & _ & Hinit').
  rewrite Hinit in Hinit'. injection Hinit' as ->.
  cbn [match_tracker possible_matches MatchTracker_init]. by rewrite length_map.
Qed.
End Feasibility.

(** ** What the report lists *)

Lemma filter_length_1 {A} (P : A → Prop) `{!∀ x, Decision (P x)} (l : list A) :
  length (filter P l) = 1 →
  ∃ x, x ∈ l ∧ P x ∧ ∀ y, y ∈ l → P y → y = x.
Proof.
  intros Hlen. destruct (filter P l) as [|x [|??]] eqn:Hf; try done.
  assert (∀ y, y ∈ l ∧ P y ↔ y = x) as Hx.
  { intros y. rewrite <- list_elem_of_singleton, <- Hf, list_elem_of_filter.
    tauto. }
  exists x. split_and!; [by apply Hx|by apply Hx|].
  intros y ??. by apply Hx.
Qed.

(** Counting the pairs that hold each index is counting the indices that
    each pair holds. *)
Lemma sum_filter_swap (l : list tuple) (idxs : list nat) :
  sum_list (map (λ idx, length (filter (λ pm : tuple, idx ∈ pm) l)) idxs)
  = sum_list (map (λ pm : tuple, length (filter (λ idx, idx ∈ pm) idxs)) l).
Proof.
  induction l as [|pm l IH]; cbn [map sum_list].
  - induction idxs as [|idx idxs IH]; [done|]. cbn [map sum_list]. by rewrite IH.
  - rewrite <- IH. clear IH.
    induction idxs as [|idx idxs IH]; [done|].
    cbn [map sum_list]. rewrite !filter_cons, IH.
    unfold id in *. repeat case_decide; cbn [length]; (done || lia).
Qed.

Lemma indices_of_pair (n i j : nat) :
  i < n → j < n →
  length (filter (λ idx, idx ∈ [i; j]) (seq 0 n)) = if decide (i = j) then 1 else 2.
Proof.
  intros Hi Hj.
  assert (filter (λ idx, idx ∈ [i; j]) (seq 0 n) ≡ₚ remove_dups [i; j]) as ->.
  { apply NoDup_Permutation.
    - apply NoDup_filter, NoDup_seq.
    - apply NoDup_remove_dups.
    - intros x. rewrite list_elem_of_filter, elem_of_remove_dups, elem_of_seq.
      split; [tauto|]. intros Hx. split; [done|].
      apply elem_of_cons in Hx as [->|Hx]; [lia|].
      apply list_elem_of_singleton in Hx as ->. lia. }
  case_decide as Hij.
  - subst. cbn. case_decide as H1; [|exfalso; apply H1; by left].
    case_decide as H2; [by apply elem_of_nil in H2|done].
  - by apply len_set_pair.
Qed.

Section Listing.
Context {Person : Type}.
Variable day_choice : Person → string.

Implicit Types (ps : list Person) (e : nat * nat * Person * Person)
  (es : list (nat * nat * Person * Person)).

Lemma day_step_unmatched (acc : list (string * list (nat * nat)) * list nat) es :
  (foldl (day_step day_choice) acc es).2
  = acc.2 ++ map (λ e, e.1.1.1) (filter (λ e, e.1.1.1 = e.1.1.2) es).
Proof.
  revert acc. induction es as [|[[[i j] p1] p2] es IH]; intros [d u]; cbn [foldl].
  - cbn. by rewrite app_nil_r.
  - rewrite IH, filter_cons. cbn [day_step fst snd].
    destruct (Nat.eqb_spec i j) as [->|Hij]; cbn [fst snd].
    + rewrite decide_True by done. cbn. by rewrite <- app_assoc.
    + by rewrite decide_False by done.
Qed.

Lemma entries_keys ps (sel : list tuple) es :
  Forall2 (entry_of ps) sel es → map (λ e, [e.1.1.1; e.1.1.2]) es = sel.
Proof.
  induction 1 as [|pm [[[i j] p1] p2] sel es (-> & _ & _) _ IH]; [done|].
  cbn. by rewrite IH.
Qed.

Lemma entries_self ps (sel : list tuple) es (idx : nat) :
  Forall2 (entry_of ps) sel es →
  idx ∈ map (λ e, e.1.1.1) (filter (λ e, e.1.1.1 = e.1.1.2) es)
  ↔ [idx; idx] ∈ sel.
Proof.
  intros HF. rewrite <- (entries_keys ps sel es HF), !list_elem_of_fmap. split.
  - intros ([[[i j] p1] p2] & -> & [Hij Hin]%list_elem_of_filter).
    cbn in *. subst. by exists (j, j, p1, p2).
  - intros ([[[i j] p1] p2] & [= -> ->] & Hin).
    exists (j, j, p1, p2). split; [done|]. by apply list_elem_of_filter.
Qed.

Lemma entries_listed ps (sel : list tuple) es (i j : nat) :
  Forall2 (entry_of ps) sel es →
  (∃ p1 p2, (i, j, p1, p2) ∈ es) ↔ [i; j] ∈ sel.
Proof.
  intros HF. rewrite <- (entries_keys ps sel es HF), list_elem_of_fmap. split.
  - intros (p1 & p2 & Hin). by exists (i, j, p1, p2).
  - intros ([[[i' j'] p1] p2] & [= -> ->] & Hin). eauto.
Qed.

Lemma entries_count ps (sel : list tuple) es :
  (∀ pm, pm ∈ sel → pm ∈ build_possible_matches (length ps)) →
  Forall2 (entry_of ps) sel es →
  sum_list (map (λ pm : tuple,
                   length (filter (λ idx, idx ∈ pm) (seq 0 (length ps)))) sel)
  = length (filter (λ e, e.1.1.1 = e.1.1.2) es) + 2 * length (matches_by_index es).
Proof.
  intros Hsel HF.
  induction HF as [|pm [[[i j] p1] p2] sel es (-> & Hp1 & Hp2) _ IH]; [done|].
  cbn [map sum_list]. rewrite IH by (intros; apply Hsel; by right).
  unfold matches_by_index. rewrite !filter_cons. cbn [fst snd].
  rewrite indices_of_pair by by eapply lookup_lt_Some.
  unfold id. repeat case_decide; cbn [length]; (done || lia).
Qed.
End Listing.

Section Reporting.
Context {Person Row : Type}.
Variable build : Row → Person.
Variable matrix_similarity : Person → Person → float.
Variable is_pairing_preferred : Person → Person → float.
Variable is_pairable : Person → Person → Z.
Variable Person_ne : Person → Person → bool.
Variable day_choice : Person → string.
Variable gender_title : Person → string.

Local Abbreviation init := (MatchMaker_init build matrix_similarity
                              is_pairing_preferred is_pairable).
Local Abbreviation run := (solve matrix_similarity Person_ne day_choice
                             gender_title).
Local Abbreviation log := (log_matches Person_ne day_choice gender_title).

(** The lists of a report are those of [log_matches]. *)
Lemma solve_log_matches (mm : MatchMaker Person) (out : SolverOutput)
    (r : Report) :
  run mm out = Ok r →
  log (solver_run mm out) = Ok (r_days r, r_unmatched r, r_genders r).
Proof.
  unfold solve. destruct (mean_score _) as [mean|e]; [|done].
  cbn [mbind result_bind].
  destruct (get_matches _) as [ms|e]; [|done]. cbn [mbind result_bind].
  destruct (foldl _ _ ms) as [scores num_matches].
  destruct (log_matches _ _ _ _) as [[[d u] n]|e]; [|done].
  cbn. by intros [= <-].
Qed.

(** What [log_matches] lists, against the selection it was made from. *)
Lemma log_matches_listing (rows : list Row) (out : SolverOutput) :
  let ps := map build rows in
  let sel := selected (out_values out) (build_possible_matches (length ps)) in
  (∀ pm, pm ∈ build_possible_matches (length ps) →
         is_Some (out_values out !! pm)) →
  ∃ p day_dict unmatched num,
    init rows = Ok (mkMatchMaker ps (MatchTracker_init ps) p)
    ∧ log (solver_run (mkMatchMaker ps (MatchTracker_init ps) p) out)
      = Ok (day_dict, unmatched, num)
    ∧ (∀ idx, idx ∈ unmatched ↔ [idx; idx] ∈ sel)
    ∧ NoDup unmatched
    ∧ (∀ i j, listed day_dict i j ↔ [i; j] ∈ sel ∧ i ≠ j)
    ∧ length unmatched + 2 * group_total day_dict
      = sum_list (map (λ pm : tuple,
                         length (filter (λ idx, idx ∈ pm) (seq 0 (length ps))))
                    sel).
Proof.
  intros ps sel Hall.
  destruct (log_matches_report build matrix_similarity is_pairing_preferred
              is_pairable Person_ne day_choice gender_title rows out Hall)
    as (p & es & Hinit & Hes & _ & _ & Hlog).
  fold ps sel in Hes, Hinit, Hlog.
  eexists p, _, _, _. split; [exact Hinit|]. split; [exact Hlog|].
  unfold listed. rewrite day_step_unmatched. cbn [snd app].
  split_and!.
  - intros idx. by eapply entries_self.
  - apply NoDup_fmap_2_strong.
    + intros [[[i j] p1] p2] [[[i' j'] q1] q2]
        [Hij [n Hn]%list_elem_of_lookup]%list_elem_of_filter
        [Hij' [m Hm]%list_elem_of_lookup]%list_elem_of_filter Heq.
      cbn in Hij, Hij', Heq. subst.
      destruct (Forall2_lookup_r _ _ _ _ _ Hes Hn) as (pm & Hpm & -> & Hp1 & Hp2).
      destruct (Forall2_lookup_r _ _ _ _ _ Hes Hm) as (pm' & Hpm' & -> & Hq1 & Hq2).
      assert (n = m) as ->.
      { eapply NoDup_lookup; [|exact Hpm|exact Hpm'].
        apply NoDup_filter, NoDup_build_possible_matches. }
      by simplify_eq.
    + apply NoDup_filter.
      assert (NoDup (map (λ e, [e.1.1.1; e.1.1.2]) es)) as Hnd.
      { rewrite (entries_keys _ _ _ Hes).
        apply NoDup_filter, NoDup_build_possible_matches. }
      by apply NoDup_fmap_1 in Hnd.
  - intros i j. split.
    + intros (k & grp & Hin & Hy).
      destruct (proj1 (day_step_groups day_choice ([], []) es k (i, j)))
        as [(? & Hnil & _)|(i' & j' & p1 & p2 & Hin' & Hij & [= -> ->] & _)];
        [by exists grp|by apply elem_of_nil in Hnil|].
      split; [|done]. eapply entries_listed; eauto.
    + intros [(p1 & p2 & Hin)%(entries_listed _ _ _ _ _ Hes) Hij].
      eexists. apply day_step_groups. right. by exists i, j, p1, p2.
  - rewrite (entries_count ps sel es); [|by intros pm [_ ?]%list_elem_of_filter|done].
    rewrite day_step_total, length_map. cbn [fst group_total map sum_list]. lia.
Qed.

(** X5. [log_matches] lists the selection and nothing else: "Unmatched"
    holds the indices whose self-pair is selected, each once, and the day
    breakdown holds the selected pairs of two different indices; a report
    of [solve] carries these lists. *)
Theorem report_lists_selection (rows : list Row) (out : SolverOutput) :
  ∃ mm,
    init rows = Ok mm
    ∧ ((∀ pm, pm ∈ possible_matches (match_tracker mm) →
              is_Some (out_values out !! pm)) →
       ∃ day_dict unmatched num sel,
         log (solver_run mm out) = Ok (day_dict, unmatched, num)
         ∧ get_true_possible_matches (match_tracker (solver_run mm out)) = Ok sel
         ∧ (∀ idx, idx ∈ unmatched ↔ [idx; idx] ∈ sel)
         ∧ NoDup unmatched
         ∧ (∀ i j, listed day_dict i j ↔ [i; j] ∈ sel ∧ i ≠ j)
         ∧ (∀ r, run mm out = Ok r →
                 r_days r = day_dict ∧ r_unmatched r = unmatched)).
Proof.
  destruct (model_facts build matrix_similarity is_pairing_preferred is_pairable
              rows) as (p & obj & Hinit & _).
  eexists. split; [exact Hinit|].
  cbn [match_tracker possible_matches MatchTracker_init].
  intros Hall.
  destruct (log_matches_listing rows out Hall)
    as (p' & day_dict & unmatched & num & Hinit' & Hlog & Hunm & Hnd & Hdays & _).
  rewrite Hinit in Hinit'. injection Hinit' as <-.
  eexists day_dict, unmatched, num, _. split; [exact Hlog|]. split.
  { rewrite solver_run_tracker. by apply get_true_possible_matches_assigned. }
  split_and!; [done..|].
  intros r Hr%solve_log_matches. rewrite Hlog in Hr. by simplify_eq.
Qed.

Lemma sum_list_ones {A} (f : A → nat) (l : list A) :
  (∀ x, x ∈ l → f x = 1) → sum_list (map f l) = length l.
Proof.
  induction l as [|x l IH]; intros H; [done|].
  cbn [map sum_list length]. rewrite IH by (intros; apply H; by right).
  unfold id. rewrite (H x) by left. done.
Qed.

(** X6. In a solved run the lists of [log_matches] partition the roster:
    every participant is either in "Unmatched" or in exactly one pair of the
    day breakdown, never both; and the two lists account for everyone, the
    length of "Unmatched" plus twice the number of listed pairs being the
    length of the roster. *)
Theorem report_partition (rows : list Row) (out : SolverOutput) :
  ∃ mm,
    init rows = Ok mm
    ∧ (solved_run mm out →
       ∃ day_dict unmatched num,
         log (solver_run mm out) = Ok (day_dict, unmatched, num)
         ∧ length unmatched + 2 * group_total day_dict = length rows
         ∧ ∀ idx, idx < length rows →
             (idx ∈ unmatched
              ∨ ∃ i j, listed day_dict i j ∧ (idx = i ∨ idx = j))
             ∧ (idx ∈ unmatched →
                ∀ i j, listed day_dict i j → idx ≠ i ∧ idx ≠ j)
             ∧ (∀ i j i' j',
                  listed day_dict i j → listed day_dict i' j' →
                  idx = i ∨ idx = j → idx = i' ∨ idx = j' →
                  i = i' ∧ j = j')).
Proof.
  destruct (model_facts build matrix_similarity is_pairing_preferred is_pairable
              rows) as (p & obj & Hinit & _ & _ & Hcov & _).
  set (ps := map build rows) in *.
  assert (length ps = length rows) as Hlen by (subst ps; by rewrite length_map).
  eexists. split; [exact Hinit|]. intros Hrun.
  pose proof (solved_run_assigned _ _ _ Hrun) as Hall.
  destruct (log_matches_listing rows out Hall)
    as (p' & day_dict & unmatched & num & Hinit' & Hlog & Hunm & _ & Hdays
        & Hcount).
  fold ps in Hinit', Hlog, Hunm, Hdays, Hcount.
  rewrite Hinit in Hinit'. injection Hinit' as <-.
  unfold solved_run in Hrun. cbn [prob match_tracker] in Hrun.
  set (sel := selected (out_values out) (build_possible_matches (length ps))) in *.
  assert (∀ idx, idx < length ps → length (filter (λ pm, idx ∈ pm) sel) = 1)
    as Hone by (intros idx Hidx; eapply coverage_sum; eauto).
  assert (∀ pm, pm ∈ sel → ∃ i j, pm = [i; j]) as Hshape.
  { intros pm [_ (i & j & -> & _)%elem_of_build_possible_matches]%list_elem_of_filter.
    eauto. }
  exists day_dict, unmatched, num. split; [exact Hlog|]. split.
  { rewrite Hcount, <- sum_filter_swap, sum_list_ones, length_seq; [done|].
    intros idx Hidx%elem_of_seq. apply Hone. lia. }
  intros idx Hidx. rewrite <- Hlen in Hidx.
  destruct (filter_length_1 _ _ (Hone idx Hidx)) as (pm & Hpm & Hin & Huniq).
  split_and!.
  - destruct (Hshape pm Hpm) as (i & j & ->).
    destruct (decide (i = j)) as [->|Hij].
    + left. apply Hunm. apply elem_of_cons in Hin as [->|Hin]; [done|].
      by apply list_elem_of_singleton in Hin as ->.
    + right. exists i, j. split; [by apply Hdays|].
      apply elem_of_cons in Hin as [->|Hin]; [by left|].
      apply list_elem_of_singleton in Hin as ->. by right.
  - intros Hself%Hunm i j [Hsel Hij]%Hdays.
    split; intros ->.
    + pose proof (Huniq _ Hself ltac:(by left)) as <-.
      pose proof (Huniq [i; j] Hsel ltac:(by left)). simplify_eq.
    + pose proof (Huniq _ Hself ltac:(by left)) as <-.
      pose proof (Huniq [i; j] Hsel ltac:(by right; left)). simplify_eq.
  - intros i j i' j' [Hsel Hij]%Hdays [Hsel' Hij']%Hdays Hi Hi'.
    assert (idx ∈ [i; j]) as H1 by (destruct Hi as [->| ->]; [by left|by right; left]).
    assert (idx ∈ [i'; j']) as H2
      by (destruct Hi' as [->| ->]; [by left|by right; left]).
    pose proof (Huniq _ Hsel H1). pose proof (Huniq _ Hsel' H2). by simplify_eq.
Qed.
End Reporting.

(** ** When [solve] raises, and what it scores *)

(** The value of an objective whose variables all have a value: the
    constant and the terms, value times coefficient, added up from left to
    right. *)
Lemma value_from_fold (d : store) (dummy : option LpVariable)
    (f : LpElement → Z) (s : float) (e : list (LpElement * float)) :
  (∀ v c, (v, c) ∈ e → element_value d dummy v = Some (f v)) →
  value_from d dummy s e
  = Some (foldl (λ s t, (s + Z2float (f t.1) * t.2)%float) s e).
Proof.
  revert s. induction e as [|[v c] e IH]; intros s H; [done|].
  cbn [value_from foldl fst snd]. rewrite (H v c) by left.
  apply IH. intros; eapply H; by right.
Qed.

Section Solve_edges.
Context {Person Row : Type}.
Variable build : Row → Person.
Variable matrix_similarity : Person → Person → float.
Variable is_pairing_preferred : Person → Person → float.
Variable is_pairable : Person → Person → Z.
Variable Person_ne : Person → Person → bool.
Variable day_choice : Person → string.
Variable gender_title : Person → string.

Local Abbreviation init := (MatchMaker_init build matrix_similarity
                              is_pairing_preferred is_pairable).
Local Abbreviation run := (solve matrix_similarity Person_ne day_choice
                             gender_title).
Local Abbreviation score := (score_of matrix_similarity is_pairing_preferred).

(** X7. On the empty roster [__init__] builds the empty problem, whose
    objective has no term and comes out of [writeLP] holding [0*__dummy];
    its value is [None], and [solve] raises [TypeError] at the mean score,
    before it divides by the length of the roster, whatever the solver
    returned: no report is made. *)
Theorem solve_empty_roster (out : SolverOutput) :
  ∃ mm,
    init [] = Ok mm
    ∧ possible_matches (match_tracker mm) = []
    ∧ objective (prob mm)
      = Some (mkLpObjective [(DummyVariable, 0%float)] 0%float)
    ∧ constraints (prob mm) = []
    ∧ objective_value (solver_run mm out) = Ok None
    ∧ run mm out = Raise TypeError.
Proof. eexists. split; [reflexivity|]. done. Qed.

(** After a solve that left a variable without a value, [solve] raises
    [TypeError], at the mean score or else at the extraction. *)
Lemma solve_unassigned (rows : list Row) (out : SolverOutput) :
  (∃ pm, pm ∈ build_possible_matches (length rows)
         ∧ out_values out !! pm = None) →
  ∃ mm, init rows = Ok mm ∧ run mm out = Raise TypeError.
Proof.
  intros (pm & Hpm & Hnone).
  destruct (MatchMaker_init_Ok build matrix_similarity is_pairing_preferred
              is_pairable rows) as (vps & _ & Hinit).
  eexists. split; [exact Hinit|]. unfold solve.
  match goal with
  | |- context [mean_score ?m] =>
      destruct (mean_score_cases matrix_similarity is_pairing_preferred
                  (map build rows) (score_constant score vps)
                  (map (coverage_constraint (build_possible_matches (length rows)))
                     (seq 0 (length rows))
                   ++ map (λ '(v, p1, p2),
                             eligibility_constraint v (is_pairable p1 p2)) vps)
                  LpStatusNotSolved out) as [Hm|[mean Hm]];
      cbv zeta in Hm; rewrite Hm; [done|]
  end.
  cbn [mbind result_bind]. unfold get_matches. rewrite solver_run_tracker.
  rewrite <- (length_map build rows) in Hpm.
  rewrite get_true_possible_matches_unassigned; [done| |].
  - intros k Hk. cbn [possible_matches variables] in *.
    rewrite lookup_solved_store; eauto.
  - exists pm, (mkLpVariable 0 1 LpInteger None).
    cbn [possible_matches variables]. split_and!; [done| |done].
    by rewrite lookup_solved_store, Hnone.
Qed.

(** X8. [solve] reports nothing for a solver that left a variable without a
    value: it raises [TypeError]. *)
Theorem solve_needs_values (rows : list Row) (out : SolverOutput) :
  ∃ mm,
    init rows = Ok mm
    ∧ ((∃ pm, pm ∈ possible_matches (match_tracker mm)
              ∧ out_values out !! pm = None) →
       run mm out = Raise TypeError).
Proof.
  destruct (MatchMaker_init_Ok build matrix_similarity is_pairing_preferred
              is_pairable rows) as (vps & _ & Hinit).
  eexists. split; [exact Hinit|].
  cbn [match_tracker possible_matches MatchTracker_init].
  rewrite length_map. intros Hnone.
  destruct (solve_unassigned rows out Hnone) as (mm & Hinit' & Hraise).
  rewrite Hinit in Hinit'. by injection Hinit' as <-.
Qed.

Lemma solve_mean (mm : MatchMaker Person) (out : SolverOutput) (r : Report) :
  run mm out = Ok r → mean_score (solver_run mm out) = Ok (r_mean_score r).
Proof.
  unfold solve. destruct (mean_score _) as [mean|e]; [|done].
  cbn [mbind result_bind].
  destruct (get_matches _) as [ms|e]; [|done]. cbn [mbind result_bind].
  destruct (foldl _ _ ms) as [scores num_matches].
  destruct (log_matches _ _ _ _) as [[[d u] n]|e]; [|done].
  cbn. by intros [= <-].
Qed.

(** X9. The scores of a report, on a roster with a scored pair whose
    variables all have a value: the mean score per person is twice the value
    of the objective, divided by the length of the roster, all in double
    arithmetic, the value being the constant of the objective and its terms,
    value times score, added up in the order of the candidate pairs; and the
    list of scores holds the similarity of every selected pair, self-pairs
    included, in the order of the selection. *)
Theorem report_scores (rows : list Row) (out : SolverOutput) :
  ∃ mm obj,
    init rows = Ok mm
    ∧ objective (prob mm) = Some obj
    ∧ (scored score (mm_persons mm) →
       (∀ pm, pm ∈ possible_matches (match_tracker mm) →
              is_Some (out_values out !! pm)) →
       ∃ r sel,
         run mm out = Ok r
         ∧ get_true_possible_matches (match_tracker (solver_run mm out)) = Ok sel
         ∧ o_terms obj = score_terms score (mm_persons mm)
         ∧ r_mean_score r
           = (2 * foldl (λ s t, s + Z2float (term_value (out_values out) t.1)
                                    * t.2)
                    (o_constant obj) (o_terms obj)
              / Z2float (Z.of_nat (length rows)))%float
         ∧ Forall2 (λ pm s, ∃ p1 p2, pair_people (mm_persons mm) pm p1 p2
                                     ∧ s = matrix_similarity p1 p2)
             sel (r_scores r)).
Proof.
  destruct (model_facts build matrix_similarity is_pairing_preferred is_pairable
              rows) as (p & obj & Hinit & Hobj & Hterms & _).
  set (ps := map build rows) in *.
  assert (length ps = length rows) as Hlen by (subst ps; by rewrite length_map).
  eexists _, obj. split; [exact Hinit|]. split; [exact Hobj|].
  cbn [match_tracker possible_matches MatchTracker_init mm_persons].
  intros Hscored Hall. pose proof Hall as Hall'. rewrite Hlen in Hall'.
  destruct (solve_report build matrix_similarity is_pairing_preferred
              is_pairable Person_ne day_choice gender_title rows out
              Hscored Hall')
    as (mm & es & mean & Hinit' & Hes & Hrun).
  fold ps in Hinit', Hes. rewrite Hinit in Hinit'. injection Hinit' as <-.
  rewrite <- Hlen in Hes.
  destruct (objective_terms_cases score ps) as [(_ & Ht & _)|[Hns _]]; [|done].
  rewrite Ht in Hterms.
  eexists _, _. split; [exact Hrun|]. split.
  { rewrite solver_run_tracker. by apply get_true_possible_matches_assigned. }
  split; [exact Hterms|]. split.
  - pose proof (solve_mean _ _ _ Hrun) as Hmean. cbn [r_mean_score] in *.
    unfold mean_score, objective_value in Hmean.
    change (prob (solver_run (mkMatchMaker ps (MatchTracker_init ps) p) out))
      with (let p' := fix_restore p in
            mkLpProblem (prob_name p') (sense p') (objective p') (constraints p')
              (out_status out) (dummyVar p')) in Hmean.
    rewrite (fix_restore_terms p obj Hobj) in Hmean.
    2:{ rewrite Hterms. by apply score_terms_scored. }
    cbn [objective dummyVar] in Hmean. rewrite Hobj in Hmean.
    cbn [mbind result_bind] in Hmean.
    rewrite solver_run_tracker in Hmean. cbn [variables] in Hmean.
    rewrite (value_from_fold _ _ (term_value (out_values out))) in Hmean.
    2:{ rewrite Hterms.
        intros v c (pm & _ & _ & -> & Hpm & _)%elem_of_score_terms.
        cbn [element_value term_value].
        rewrite lookup_solved_store by done. cbn. unfold value_of.
        by destruct (Hall pm Hpm) as [z ->]. }
    change (mm_persons (solver_run _ out)) with ps in Hmean.
    destruct (Nat.eqb (length ps) 0); [done|]. injection Hmean as <-.
    by rewrite Hlen.
  - cbn [r_scores]. rewrite <- list_fmap_compose. apply Forall2_fmap_r.
    eapply Forall2_impl; [exact Hes|].
    intros pm [[[i j] p1] p2] (-> & Hp1 & Hp2). exists p1, p2.
    split; [by exists i, j|done].
Qed.

(** X10. The roster keeps the order of the rows: the participant at an index
    is the one built from the row at that index, and the tracker holds the
    same roster as the match maker. *)
Theorem roster_index_stable (rows : list Row) :
  ∃ mm,
    init rows = Ok mm
    ∧ persons (match_tracker mm) = mm_persons mm
    ∧ length (mm_persons mm) = length rows
    ∧ ∀ i, mm_persons mm !! i = build <$> rows !! i.
Proof.
  destruct (model_facts build matrix_similarity is_pairing_preferred is_pairable
              rows) as (p & obj & Hinit & _).
  eexists. split; [exact Hinit|]. cbn [match_tracker mm_persons persons MatchTracker_init].
  split_and!; [done|by rewrite length_map|]. intros i. apply list_lookup_fmap.
Qed.

(** X16. [solve] either reports or raises [TypeError], nothing else: it
    reports exactly when some candidate pair has a score that is not 0 and
    the solver gave every variable a value. On a roster whose scores are all
    0, the roster of one participant with similarity 0 to themselves among
    them, the objective holds [0*__dummy] alone and [solve] raises whatever
    the solver returned. *)
Theorem solve_reports_iff (rows : list Row) (out : SolverOutput) :
  ∃ mm,
    init rows = Ok mm
    ∧ ((∃ r, run mm out = Ok r)
       ↔ scored score (mm_persons mm)
         ∧ ∀ pm, pm ∈ possible_matches (match_tracker mm) →
                 is_Some (out_values out !! pm))
    ∧ ((∃ r, run mm out = Ok r) ∨ run mm out = Raise TypeError)
    ∧ (¬ scored score (mm_persons mm) →
       ∃ c, objective (prob mm)
            = Some (mkLpObjective [(DummyVariable, 0%float)] c)).
Proof.
  destruct (MatchMaker_init_Ok build matrix_similarity is_pairing_preferred
              is_pairable rows) as (vps & _ & Hinit).
  eexists. split; [exact Hinit|].
  cbn [match_tracker possible_matches MatchTracker_init mm_persons prob
       objective].
  rewrite length_map.
  set (ps := map build rows) in *.
  set (pms := build_possible_matches (length rows)).
  match type of Hinit with _ = Ok ?m0 => set (mm := m0) in * end.
  assert (scored score ps ∧ (∀ pm, pm ∈ pms → is_Some (out_values out !! pm))
          → ∃ r, run mm out = Ok r) as Hok.
  { intros [Hscored Hall].
    destruct (solve_report build matrix_similarity is_pairing_preferred
                is_pairable Person_ne day_choice gender_title rows out
                Hscored Hall)
      as (mm' & es & mean & Hinit' & _ & Hrun).
    rewrite Hinit in Hinit'. injection Hinit' as <-. eauto. }
  assert (¬ (scored score ps
             ∧ (∀ pm, pm ∈ pms → is_Some (out_values out !! pm)))
          → run mm out = Raise TypeError) as Hraise.
  { intros Hnot.
    destruct (objective_terms_cases score ps) as [[Hs _]|[Hns _]].
    - destruct (decide (Forall (λ pm, is_Some (out_values out !! pm)) pms))
        as [Hall|Hsome].
      + exfalso. apply Hnot. split; [done|]. by apply Forall_forall.
      + apply not_Forall_Exists in Hsome; [|apply _].
        apply Exists_exists in Hsome as (pm & Hpm & Hnone).
        destruct (solve_unassigned rows out) as (mm' & Hinit' & Hr).
        { exists pm. split; [done|]. cbn in Hnone.
          destruct (out_values out !! pm); [|done]. exfalso. eauto. }
        rewrite Hinit in Hinit'. by injection Hinit' as <-.
    - destruct (solve_unscored build matrix_similarity is_pairing_preferred
                  is_pairable Person_ne day_choice gender_title rows out Hns)
        as (mm' & Hinit' & Hr).
      rewrite Hinit in Hinit'. by injection Hinit' as <-. }
  split_and!.
  - split; [|exact Hok]. intros [r Hr].
    destruct (objective_terms_cases score ps) as [[Hs _]|[Hns _]].
    + split; [done|]. intros pm Hpm.
      destruct (out_values out !! pm) eqn:Hv; [eauto|]. exfalso.
      assert (run mm out = Raise TypeError) as Hr'.
      { apply Hraise. intros [_ Hall]. destruct (Hall pm Hpm) as [z Hz].
        congruence. }
      change (run mm out = Ok r) in Hr. congruence.
    + exfalso. assert (run mm out = Raise TypeError) as Hr'.
      { apply Hraise. by intros [? _]. }
      change (run mm out = Ok r) in Hr. congruence.
  - destruct (objective_terms_cases score ps) as [[Hs _]|[Hns _]].
    + destruct (decide (Forall (λ pm, is_Some (out_values out !! pm)) pms))
        as [Hall|Hsome].
      * left. apply Hok. split; [done|]. by apply Forall_forall.
      * right. apply Hraise. intros [_ Hall]. by apply Hsome, Forall_forall.
    + right. apply Hraise. by intros [? _].
  - intros Hns.
    destruct (objective_terms_cases score ps) as [[Hs _]|(_ & -> & _)]; [done|].
    eauto.
Qed.
End Solve_edges.

(** ** The breakdowns, bucket by bucket *)

Lemma dd_lookup_update {V} (dflt : V) (f : V → V) (k k' : string)
    (d : list (string * V)) :
  dd_lookup k' (defaultdict_update dflt f k d)
  = if String.eqb k k' then Some (f (default dflt (dd_lookup k d)))
    else dd_lookup k' d.
Proof.
  induction d as [|[k0 v] d IH]; cbn [defaultdict_update dd_lookup].
  - done.
  - destruct (String.eqb_spec k0 k) as [->|Hk0]; cbn [dd_lookup].
    + destruct (String.eqb_spec k k'); [done|]. done.
    + rewrite IH. destruct (String.eqb_spec k0 k') as [->|?]; [|done].
      by destruct (String.eqb_spec k k').
Qed.

Lemma elem_of_keys_update {V} (dflt : V) (f : V → V) (k k' : string)
    (d : list (string * V)) :
  k' ∈ (defaultdict_update dflt f k d).*1 ↔ k' = k ∨ k' ∈ d.*1.
Proof.
  induction d as [|[k0 v] d IH]; cbn [defaultdict_update].
  - cbn. rewrite list_elem_of_singleton. split; [by left|]. intros [?|?%elem_of_nil]; done.
  - destruct (String.eqb_spec k0 k) as [->|Hk0]; cbn; rewrite !elem_of_cons.
    + tauto.
    + rewrite IH. tauto.
Qed.

Lemma NoDup_keys_update {V} (dflt : V) (f : V → V) (k : string)
    (d : list (string * V)) :
  NoDup d.*1 → NoDup (defaultdict_update dflt f k d).*1.
Proof.
  induction d as [|[k0 v] d IH]; cbn [defaultdict_update]; intros Hnd.
  - cbn. apply NoDup_singleton.
  - cbn in Hnd. apply NoDup_cons in Hnd as [Hk0 Hnd].
    destruct (String.eqb_spec k0 k) as [->|Hne]; cbn.
    + by apply NoDup_cons.
    + apply NoDup_cons. split; [|by apply IH].
      rewrite elem_of_keys_update. intros [?|?]; done.
Qed.

Lemma dd_lookup_elem_of {V} (k : string) (v : V) (d : list (string * V)) :
  NoDup d.*1 → (k, v) ∈ d ↔ dd_lookup k d = Some v.
Proof.
  induction d as [|[k0 v0] d IH]; cbn [dd_lookup]; intros Hnd.
  - split; [by intros ?%elem_of_nil|done].
  - cbn in Hnd. apply NoDup_cons in Hnd as [Hk0 Hnd]. rewrite elem_of_cons.
    destruct (String.eqb_spec k0 k) as [->|Hne].
    + split.
      * intros [[= ->]|Hin]; [done|]. exfalso. apply Hk0.
        apply list_elem_of_fmap. by exists (k, v).
      * intros [= ->]. by left.
    + rewrite <- IH by done. split; [|by right]. intros [[= ??]|?]; done.
Qed.

(** The entries of [es] that the predicate keeps are the keys of [sel] that
    its counterpart keeps. *)
Lemma filter_entries {Person} (ps : list Person) (sel : list tuple)
    (es : list (nat * nat * Person * Person))
    (P : nat * nat * Person * Person → Prop) (Q : tuple → Prop)
    `{!∀ e, Decision (P e)} `{!∀ pm, Decision (Q pm)} :
  (∀ pm e, entry_of ps pm e → P e ↔ Q pm) →
  Forall2 (entry_of ps) sel es →
  map (λ e, [e.1.1.1; e.1.1.2]) (filter P es) = filter Q sel.
Proof.
  intros HPQ. induction 1 as [|pm [[[i j] p1] p2] sel es He _ IH]; [done|].
  rewrite !filter_cons. pose proof (HPQ _ _ He) as Hiff.
  destruct He as (-> & _ & _).
  repeat case_decide; cbn; rewrite ?IH; tauto.
Qed.

Section Day_buckets.
Context {Person : Type}.
Variable day_choice : Person → string.

Implicit Types (e : nat * nat * Person * Person)
  (es : list (nat * nat * Person * Person)).

Lemma day_step_bucket (acc : list (string * list (nat * nat)) * list nat) es
    (k : string) :
  default [] (dd_lookup k (foldl (day_step day_choice) acc es).1)
  = default [] (dd_lookup k acc.1)
    ++ map (λ e, (e.1.1.1, e.1.1.2))
         (filter (λ e, e.1.1.1 ≠ e.1.1.2 ∧ entry_day day_choice e = k) es).
Proof.
  revert acc. induction es as [|[[[i j] p1] p2] es IH]; intros [d u]; cbn [foldl].
  - cbn. by rewrite app_nil_r.
  - rewrite IH, filter_cons. cbn [day_step fst snd]. unfold entry_day at 2.
    cbn [fst snd].
    destruct (Nat.eqb_spec i j) as [->|Hij]; cbn [fst snd].
    + by rewrite decide_False by tauto.
    + rewrite dd_lookup_update.
      destruct (String.eqb_spec
                  (get_day_or_either (day_choice p1) (day_choice p2)) k)
        as [<-|Hk].
      * rewrite decide_True by done. cbn. by rewrite <- app_assoc.
      * by rewrite decide_False by tauto.
Qed.

Lemma day_step_keys (acc : list (string * list (nat * nat)) * list nat) es :
  NoDup acc.1.*1 → (∀ k grp, (k, grp) ∈ acc.1 → grp ≠ []) →
  NoDup (foldl (day_step day_choice) acc es).1.*1
  ∧ ∀ k grp, (k, grp) ∈ (foldl (day_step day_choice) acc es).1 → grp ≠ [].
Proof.
  revert acc. induction es as [|[[[i j] p1] p2] es IH]; intros [d u] Hnd Hne;
    cbn [foldl]; [done|].
  apply IH; cbn [day_step]; destruct (Nat.eqb i j); cbn [fst]; try done.
  - by apply NoDup_keys_update.
  - intros k grp Hin Hnil. subst grp.
    assert (∃ grp, (k, grp) ∈ defaultdict_update [] (λ l, l ++ [(i, j)])
              (get_day_or_either (day_choice p1) (day_choice p2)) d
            ∧ grp = []) as (grp & Hin' & ->) by eauto.
    apply dd_lookup_elem_of in Hin'; [|by apply NoDup_keys_update].
    rewrite dd_lookup_update in Hin'.
    destruct (String.eqb _ k).
    + injection Hin' as Hin'. by destruct (default [] _).
    + apply dd_lookup_elem_of in Hin'; [|done]. by eapply Hne.
Qed.

End Day_buckets.

Section Gender_buckets.
Context {Person : Type}.
Variable Person_ne : Person → Person → bool.
Variable gender_title : Person → string.

Implicit Types (ms : list (Person * Person)).

Lemma gender_step_bucket (num : list (string * Z)) ms (k : string) :
  default 0%Z (dd_lookup k (foldl (gender_step Person_ne gender_title) num ms))
  = (default 0%Z (dd_lookup k num)
     + Z.of_nat (length (filter (λ m, Person_ne m.1 m.2 = true ∧ match_key gender_title m = k)
                           ms)))%Z.
Proof.
  revert num. induction ms as [|[p1 p2] ms IH]; intros num; cbn [foldl].
  - cbn. lia.
  - rewrite IH, filter_cons. clear IH. cbn [gender_step].
    fold (gender_key (gender_title p1) (gender_title p2)).
    case_decide as Hdec; cbn [fst snd] in Hdec; unfold match_key in Hdec;
      cbn [fst snd] in Hdec.
    + destruct Hdec as [-> <-]. rewrite dd_lookup_update, String.eqb_refl.
      cbn [from_option length]. rewrite Nat2Z.inj_succ. unfold id. lia.
    + destruct (Person_ne p1 p2); [|lia]. rewrite dd_lookup_update.
      destruct (String.eqb_spec (gender_key (gender_title p1) (gender_title p2)) k);
        [tauto|lia].
Qed.

Lemma gender_step_keys (num : list (string * Z)) ms :
  NoDup num.*1 → NoDup (foldl (gender_step Person_ne gender_title) num ms).*1.
Proof.
  revert num. induction ms as [|[p1 p2] ms IH]; intros num Hnd; cbn [foldl];
    [done|].
  apply IH. cbn [gender_step]. destruct (Person_ne p1 p2); [|done].
  by apply NoDup_keys_update.
Qed.
End Gender_buckets.

Lemma str_min_comm (a b : string) : str_min a b = str_min b a.
Proof.
  unfold str_min, String.ltb. rewrite (String.compare_antisym a b).
  destruct (String.compare b a) eqn:Hc; cbn; try done.
  by apply String.compare_eq_iff in Hc.
Qed.

Lemma str_max_comm (a b : string) : str_max a b = str_max b a.
Proof.
  unfold str_max, String.ltb. rewrite (String.compare_antisym a b).
  destruct (String.compare b a) eqn:Hc; cbn; try done.
  by apply String.compare_eq_iff in Hc.
Qed.

Lemma str_min_max_cases (a b : string) :
  String.leb (str_min a b) (str_max a b) = true
  ∧ (str_min a b = a ∧ str_max a b = b ∨ str_min a b = b ∧ str_max a b = a).
Proof.
  unfold str_min, str_max, String.ltb, String.leb.
  rewrite (String.compare_antisym a b).
  destruct (String.compare b a) eqn:Hc; cbn.
  - pose proof (String.compare_eq_iff _ _ Hc) as ->. rewrite Hc. tauto.
  - rewrite Hc. tauto.
  - rewrite String.compare_antisym, Hc. cbn. tauto.
Qed.

Section Bucket_claims.
Context {Person Row : Type}.
Variable build : Row → Person.
Variable matrix_similarity : Person → Person → float.
Variable is_pairing_preferred : Person → Person → float.
Variable is_pairable : Person → Person → Z.
Variable Person_ne : Person → Person → bool.
Variable day_choice : Person → string.
Variable gender_title : Person → string.

Local Abbreviation init := (MatchMaker_init build matrix_similarity
                              is_pairing_preferred is_pairable).
Local Abbreviation run := (solve matrix_similarity Person_ne day_choice
                             gender_title).

(** X11. The day breakdown of [log_matches], bucket by bucket: each day is
    a key once, no bucket is empty, and the bucket of a day holds, in the
    order of the selection, the selected pairs of two different indices that
    resolve to that day. *)
Theorem day_breakdown_buckets (rows : list Row) (out : SolverOutput) :
  ∃ mm,
    init rows = Ok mm
    ∧ ((∀ pm, pm ∈ possible_matches (match_tracker mm) →
              is_Some (out_values out !! pm)) →
       ∃ day_dict unmatched num sel,
         log_matches Person_ne day_choice gender_title (solver_run mm out)
         = Ok (day_dict, unmatched, num)
         ∧ get_true_possible_matches (match_tracker (solver_run mm out)) = Ok sel
         ∧ NoDup day_dict.*1
         ∧ (∀ k grp, (k, grp) ∈ day_dict → grp ≠ [])
         ∧ ∀ k,
             map (λ ij, [ij.1; ij.2]) (default [] (dd_lookup k day_dict))
             = filter (λ pm, is_match pm = true
                             ∧ day_of day_choice (mm_persons mm) pm = Some k)
                 sel).
Proof.
  destruct (model_facts build matrix_similarity is_pairing_preferred is_pairable
              rows) as (p & obj & Hinit & _).
  eexists. split; [exact Hinit|].
  cbn [match_tracker possible_matches MatchTracker_init mm_persons].
  intros Hall.
  destruct (log_matches_report build matrix_similarity is_pairing_preferred
              is_pairable Person_ne day_choice gender_title rows out Hall)
    as (p' & es & Hinit' & Hes & _ & _ & Hlog).
  rewrite Hinit in Hinit'. injection Hinit' as <-.
  eexists _, _, _, _. split; [exact Hlog|]. split.
  { rewrite solver_run_tracker. by apply get_true_possible_matches_assigned. }
  destruct (day_step_keys day_choice ([], []) es) as [Hnd Hnonempty].
  { cbn. constructor. }
  { by intros k grp ?%elem_of_nil. }
  split; [exact Hnd|]. split; [exact Hnonempty|].
  intros k. rewrite day_step_bucket. cbn [fst dd_lookup default app].
  rewrite <- list_fmap_compose.
  apply (filter_entries (map build rows)); [|exact Hes].
  intros pm [[[i j] p1] p2] (-> & Hp1 & Hp2). unfold entry_day. cbn.
  rewrite Hp1. cbn. rewrite Hp2. cbn.
  destruct (Nat.eqb_spec i j); cbn; split; intros [? ?]; split;
    try done; congruence.
Qed.

(** X12. The gender breakdown of [log_stats], bucket by bucket: each key is
    there once, the count under a key is the number of selected pairs of two
    different persons whose titles, put in order, give that key, and the key
    of two titles does not depend on their order: it is the smaller title, a
    slash, and the larger. *)
Theorem gender_breakdown_counts (rows : list Row) (out : SolverOutput) :
  ∃ mm,
    init rows = Ok mm
    ∧ (∀ a b, gender_key a b = gender_key b a
              ∧ ∃ lo hi, gender_key a b = lo +:+ "/" +:+ hi
                         ∧ String.leb lo hi = true
                         ∧ (lo = a ∧ hi = b ∨ lo = b ∧ hi = a))
    ∧ ((∀ pm, pm ∈ possible_matches (match_tracker mm) →
              is_Some (out_values out !! pm)) →
       ∃ num ms,
         log_stats Person_ne gender_title (solver_run mm out) = Ok num
         ∧ get_matches (match_tracker (solver_run mm out)) = Ok ms
         ∧ NoDup num.*1
         ∧ ∀ k,
             default 0%Z (dd_lookup k num)
             = Z.of_nat (length (filter (λ m, Person_ne m.1 m.2 = true
                                              ∧ match_key gender_title m = k)
                                   ms))).
Proof.
  destruct (model_facts build matrix_similarity is_pairing_preferred is_pairable
              rows) as (p & obj & Hinit & _).
  eexists. split; [exact Hinit|]. split.
  { intros a b. split.
    - unfold gender_key. by rewrite str_min_comm, str_max_comm.
    - exists (str_min a b), (str_max a b). split; [done|].
      apply str_min_max_cases. }
  cbn [match_tracker possible_matches MatchTracker_init].
  intros Hall.
  destruct (log_matches_report build matrix_similarity is_pairing_preferred
              is_pairable Person_ne day_choice gender_title rows out Hall)
    as (p' & es & Hinit' & Hes & Hms & Hstats & _).
  rewrite Hinit in Hinit'. injection Hinit' as <-.
  eexists _, (map entry_people es). split; [exact Hstats|].
  split; [exact Hms|]. split.
  - apply gender_step_keys. constructor.
  - intros k. rewrite gender_step_bucket. cbn [dd_lookup default]. lia.
Qed.
End Bucket_claims.

(** ** Solved runs: the selected variables *)

Lemma length_filter_split {A} (P : A → Prop) `{!∀ x, Decision (P x)} (l : list A) :
  length (filter P l) + length (filter (λ x, ¬ P x) l) = length l.
Proof.
  induction l as [|x l IH]; [done|].
  rewrite !filter_cons. repeat case_decide; cbn [length]; (tauto || lia).
Qed.

Lemma sum_list_bounds {A} (g : A → nat) (l : list A) :
  (∀ x, x ∈ l → 1 ≤ g x ≤ 2) →
  length l ≤ sum_list (map g l) ∧ sum_list (map g l) ≤ 2 * length l.
Proof.
  induction l as [|x l IH]; intros H; [cbn; lia|].
  cbn [map sum_list length]. unfold id at 1 3.
  pose proof (H x ltac:(by left)).
  destruct IH; [intros; apply H; by right|]. lia.
Qed.

Section Selected_variables.
Context {Person Row : Type}.
Variable build : Row → Person.
Variable matrix_similarity : Person → Person → float.
Variable is_pairing_preferred : Person → Person → float.
Variable is_pairable : Person → Person → Z.
Variable Person_ne : Person → Person → bool.
Variable day_choice : Person → string.
Variable gender_title : Person → string.

Local Abbreviation init := (MatchMaker_init build matrix_similarity
                              is_pairing_preferred is_pairable).
Local Abbreviation run := (solve matrix_similarity Person_ne day_choice
                             gender_title).

(** X13. In a solved run [get_true_variables] returns the variables of the
    selected pairs, which are the variables the solver set to 1, each once;
    on a non-empty roster of [N] participants there are at least [N / 2] and
    at most [N] of them. *)
Theorem true_variables_solved (rows : list Row) (out : SolverOutput) :
  ∃ mm,
    init rows = Ok mm
    ∧ (solved_run mm out →
       ∃ vs,
         get_true_variables (match_tracker (solver_run mm out)) = Ok vs
         ∧ get_true_possible_matches (match_tracker (solver_run mm out)) = Ok vs
         ∧ NoDup vs
         ∧ (∀ pm, pm ∈ vs ↔ pm ∈ possible_matches (match_tracker mm)
                             ∧ out_values out !! pm = Some 1%Z)
         ∧ (rows ≠ [] →
            length rows ≤ 2 * length vs ∧ length vs ≤ length rows)).
Proof.
  destruct (model_facts build matrix_similarity is_pairing_preferred is_pairable
              rows) as (p & obj & Hinit & _ & _ & Hcov & _).
  set (ps := map build rows) in *.
  assert (length ps = length rows) as Hlen by (subst ps; by rewrite length_map).
  eexists. split; [exact Hinit|]. intros Hrun.
  pose proof (solved_run_assigned _ _ _ Hrun) as Hall.
  unfold solved_run in Hrun. cbn [prob match_tracker] in Hrun.
  cbn [match_tracker possible_matches MatchTracker_init].
  set (sel := selected (out_values out) (build_possible_matches (length ps))).
  assert (get_true_possible_matches
            (match_tracker (solver_run (mkMatchMaker ps (MatchTracker_init ps) p) out))
          = Ok sel) as Hsel.
  { rewrite solver_run_tracker. by apply get_true_possible_matches_assigned. }
  exists sel. split_and!.
  - unfold get_true_variables. rewrite Hsel. cbn [mbind result_bind].
    apply mapM_getvar_Ok. intros k [_ Hk]%list_elem_of_filter.
    rewrite solver_run_tracker. cbn [variables].
    rewrite lookup_solved_store; eauto.
  - exact Hsel.
  - apply NoDup_filter, NoDup_build_possible_matches.
  - intros pm. unfold sel, selected. rewrite list_elem_of_filter. split.
    + intros [Hpos Hpm]. split; [done|].
      destruct (solved_store_values ps _ p pm Hrun Hpm) as [Hval Hb].
      rewrite Hval. f_equal. lia.
    + intros [Hpm Hone]. split; [|done]. unfold value_of. rewrite Hone. cbn. lia.
  - intros Hne.
    assert (sum_list (map (λ pm : tuple,
                             length (filter (λ idx, idx ∈ pm) (seq 0 (length ps))))
                        sel) = length ps) as Hsum.
    { rewrite <- sum_filter_swap, sum_list_ones, length_seq; [done|].
      intros idx Hidx%elem_of_seq. eapply coverage_sum; [exact Hrun|].
      apply Hcov. lia. }
    assert (∀ pm, pm ∈ sel →
              1 ≤ length (filter (λ idx, idx ∈ pm) (seq 0 (length ps))) ≤ 2)
      as Hbound.
    { intros pm [_ (i & j & -> & Hij)%elem_of_build_possible_matches]%list_elem_of_filter.
      rewrite indices_of_pair by lia. case_decide; lia. }
    pose proof (sum_list_bounds _ _ Hbound) as Hb.
    rewrite Hsum, Hlen in Hb. lia.
Qed.

End Selected_variables.

Section Printed_counts.
Context {Person Row : Type}.
Variable build : Row → Person.
Variable matrix_similarity : Person → Person → float.
Variable is_pairing_preferred : Person → Person → float.
Variable is_pairable : Person → Person → Z.
Variable Person_ne : Person → Person → bool.
Variable day_choice : Person → string.
Variable gender_title : Person → string.

Local Abbreviation init := (MatchMaker_init build matrix_similarity
                              is_pairing_preferred is_pairable).
Local Abbreviation run := (solve matrix_similarity Person_ne day_choice
                             gender_title).

(** X15. In a solved run on a roster with a scored pair, where [!=] on the
    persons of the roster tells the indices apart, the two printed numbers
    agree with the printed lists: the number of people not matched is the
    length of "Unmatched", and the number of matches is twice the number of
    pairs in the day breakdown. *)
Theorem printed_counts_match_lists (rows : list Row) (out : SolverOutput) :
  ∃ mm,
    init rows = Ok mm
    ∧ (solved_run mm out →
       scored (score_of matrix_similarity is_pairing_preferred) (mm_persons mm) →
       (∀ i j p1 p2,
          mm_persons mm !! i = Some p1 → mm_persons mm !! j = Some p2 →
          (Person_ne p1 p2 = true ↔ i ≠ j)) →
       ∃ r,
         run mm out = Ok r
         ∧ r_not_matched r = Z.of_nat (length (r_unmatched r))
         ∧ r_num_matches r = (2 * Z.of_nat (group_total (r_days r)))%Z).
Proof.
  destruct (model_facts build matrix_similarity is_pairing_preferred is_pairable
              rows) as (p & obj & Hinit & _ & _ & Hcov & _).
  set (ps := map build rows) in *.
  assert (length ps = length rows) as Hlen by (subst ps; by rewrite length_map).
  eexists. split; [exact Hinit|]. cbn [mm_persons]. intros Hrun Hscored Hagree.
  pose proof (solved_run_assigned _ _ _ Hrun) as Hall.
  unfold solved_run in Hrun. cbn [prob match_tracker] in Hrun.
  pose proof Hall as Hall'. rewrite Hlen in Hall'.
  destruct (solve_report build matrix_similarity is_pairing_preferred
              is_pairable Person_ne day_choice gender_title rows out
              Hscored Hall')
    as (mm & es & mean & Hinit' & Hes & Hsolve).
  fold ps in Hinit', Hes. rewrite Hinit in Hinit'. injection Hinit' as <-.
  rewrite <- Hlen in Hes.
  pose proof (entries_count ps _ es
                ltac:(by intros pm [_ ?]%list_elem_of_filter) Hes) as Hcount.
  rewrite <- sum_filter_swap, sum_list_ones, length_seq in Hcount.
  2:{ intros idx Hidx%elem_of_seq. eapply coverage_sum; [exact Hrun|].
      apply Hcov. lia. }
  eexists. split; [exact Hsolve|]. cbn [r_not_matched r_num_matches r_unmatched r_days].
  rewrite <- (matches_by_index_person Person_ne ps _ es Hagree Hes).
  rewrite day_step_total, day_step_unmatched. cbn [fst snd app].
  rewrite length_map. cbn [group_total map sum_list]. lia.
Qed.
End Printed_counts.

(** ** The further properties on the small roster *)

(** X1 on the roster: three variables touch Bob, none touches index 7. *)
Lemma variables_for_person_witness :
  (∃ vs, get_variables_for_person (MatchTracker_init demo_rows) 1 = Ok vs
         ∧ length vs = 3 ∧ [1; 1] ∈ vs)
  ∧ get_variables_for_person (MatchTracker_init demo_rows) 7 = Ok [].
Proof.
  split.
  - destruct (variables_for_person demo_rows 1) as (vs & Hvs & _ & _ & Hin & _).
    destruct Hin as [Hlen Hself]; [cbn; lia|]. by exists vs.
  - destruct (variables_for_person demo_rows 7) as (vs & Hvs & _ & _ & _ & Hout).
    rewrite Hvs, Hout; [done|cbn; lia].
Defined.

(** X2 on the roster: Cy's self-pair comes with Cy twice. *)
Lemma variables_to_people_witness :
  ∃ vps,
    get_variables_to_people (MatchTracker_init demo_rows) = Ok vps
    ∧ ([2; 2], mkParticipant "cy" "Tue" "Man", mkParticipant "cy" "Tue" "Man")
      ∈ vps.
Proof.
  destruct (variables_to_people demo_rows) as (vps & Hvps & _ & _ & Hself).
  exists vps. split; [exact Hvps|]. by apply Hself.
Defined.

(** X3 on the roster: leaving Ann, Bob and Cy unmatched is feasible. *)
Lemma all_unmatched_feasible_witness :
  ∃ mm,
    demo_init demo_rows = Ok mm
    ∧ solved_run mm (mkSolverOutput LpStatusOptimal (all_unmatched 3)).
Proof.
  destruct (all_unmatched_feasible id demo_similarity demo_preferred
              demo_pairable demo_rows LpStatusOptimal) as (mm & Hinit & Hrun & _).
  - intros p1 p2 _ _. unfold demo_pairable. repeat case_match; lia.
  - intros p _. unfold demo_pairable. by rewrite String.eqb_refl.
  - by exists mm.
Defined.

(** X4 on the roster: if nobody is pairable, no assignment is feasible. *)
Lemma no_eligible_pair_infeasible_witness :
  ∃ mm,
    MatchMaker_init id demo_similarity demo_preferred never_pairable demo_rows
    = Ok mm
    ∧ ¬ solved_run mm demo_out.
Proof.
  destruct (no_eligible_pair_infeasible id demo_similarity demo_preferred
              never_pairable demo_rows 0) as (mm & Hinit & _ & Hnone).
  - cbn. lia.
  - intros pm p1 p2 _ _ _. unfold never_pairable. lia.
  - exists mm. split; [exact Hinit|apply Hnone].
Defined.

(** X5 on the roster: Cy is in "Unmatched", Ann and Bob are listed. *)
Lemma report_lists_selection_witness :
  ∃ mm day_dict unmatched num,
    demo_init demo_rows = Ok mm
    ∧ log_matches demo_ne p_day p_gender (solver_run mm demo_out)
      = Ok (day_dict, unmatched, num)
    ∧ 2 ∈ unmatched
    ∧ listed day_dict 0 1.
Proof.
  destruct (report_lists_selection id demo_similarity demo_preferred
              demo_pairable demo_ne p_day p_gender demo_rows demo_out)
    as (mm & Hinit & Hrun).
  destruct Hrun as (day_dict & unmatched & num & sel & Hlog & Hsel & Hunm & _
                    & Hdays & _);
    [by_model Hinit ltac:(all_assigned)|].
  assert (sel = [[0; 1]; [2; 2]]) as ->.
  { by_model Hinit ltac:(idtac). vm_compute in Hsel. by injection Hsel as <-. }
  exists mm, day_dict, unmatched, num.
  split_and!; [exact Hinit|exact Hlog| |].
  - apply Hunm. by right; left.
  - apply Hdays. split; [by left|lia].
Defined.

(** X6 on the roster: one unmatched and one listed pair make three. *)
Lemma report_partition_witness :
  ∃ mm day_dict unmatched num,
    demo_init demo_rows = Ok mm
    ∧ solved_run mm demo_out
    ∧ log_matches demo_ne p_day p_gender (solver_run mm demo_out)
      = Ok (day_dict, unmatched, num)
    ∧ length unmatched + 2 * group_total day_dict = 3
    ∧ (0 ∈ unmatched ∨ ∃ i j, listed day_dict i j ∧ (0 = i ∨ 0 = j)).
Proof.
  destruct (report_partition id demo_similarity demo_preferred demo_pairable
              demo_ne p_day p_gender demo_rows demo_out)
    as (mm & Hinit & Hrun).
  assert (solved_run mm demo_out) as Hsolved
    by by_model Hinit ltac:(vm_compute; reflexivity).
  destruct (Hrun Hsolved) as (day_dict & unmatched & num & Hlog & Hcount & Hpart).
  exists mm, day_dict, unmatched, num.
  split_and!; [exact Hinit|exact Hsolved|exact Hlog|exact Hcount|].
  apply (Hpart 0). cbn. lia.
Defined.

(** X8 on the roster: a value is missing, so [solve] raises. *)
Lemma solve_needs_values_witness :
  ∃ mm,
    demo_init demo_rows = Ok mm
    ∧ demo_solve mm (mkSolverOutput LpStatusOptimal demo_values_partial)
      = Raise TypeError.
Proof.
  destruct (solve_needs_values id demo_similarity demo_preferred demo_pairable
              demo_ne p_day p_gender demo_rows
              (mkSolverOutput LpStatusOptimal demo_values_partial))
    as (mm & Hinit & Hraise).
  exists mm. split; [exact Hinit|]. apply Hraise.
  exists [2; 2]. by_model Hinit ltac:(split; vm_compute; [|reflexivity]).
  do 5 right. by left.
Defined.

(** X9 on the roster: with Ann and Bob matched the value of the objective
    is 0.5, so the mean score is the double nearest to a third; the report
    has two scores. *)
Lemma report_scores_witness :
  ∃ mm r,
    demo_init demo_rows = Ok mm
    ∧ demo_solve mm demo_out = Ok r
    ∧ r_mean_score r = (2 * 0.5 / 3)%float
    ∧ r_scores r = [0.5%float; 0%float].
Proof.
  destruct (report_scores id demo_similarity demo_preferred demo_pairable
              demo_ne p_day p_gender demo_rows demo_out)
    as (mm & obj & Hinit & Hobj & Hrun).
  destruct Hrun as (r & sel & Hr & Hsel & Hterms & Hmean & Hscores);
    [by_model Hinit ltac:(exact demo_scored)
    |by_model Hinit ltac:(all_assigned)|].
  exists mm, r. split_and!; [exact Hinit|exact Hr| |].
  - rewrite Hmean. by_model Hinit ltac:(idtac).
    vm_compute in Hobj. injection Hobj as <-. vm_compute. reflexivity.
  - by_model Hinit ltac:(idtac). vm_compute in Hr. by injection Hr as <-.
Defined.

(** X11 on the roster: the Monday bucket holds Ann with Bob. *)
Lemma day_breakdown_buckets_witness :
  ∃ mm day_dict unmatched num,
    demo_init demo_rows = Ok mm
    ∧ log_matches demo_ne p_day p_gender (solver_run mm demo_out)
      = Ok (day_dict, unmatched, num)
    ∧ NoDup day_dict.*1
    ∧ map (λ ij, [ij.1; ij.2]) (default [] (dd_lookup "Mon" day_dict))
      = [[0; 1]].
Proof.
  destruct (day_breakdown_buckets id demo_similarity demo_preferred
              demo_pairable demo_ne p_day p_gender demo_rows demo_out)
    as (mm & Hinit & Hrun).
  destruct Hrun as (day_dict & unmatched & num & sel & Hlog & Hsel & Hnd & _
                    & Hbucket);
    [by_model Hinit ltac:(all_assigned)|].
  exists mm, day_dict, unmatched, num.
  split_and!; [exact Hinit|exact Hlog|exact Hnd|].
  rewrite Hbucket. by_model Hinit ltac:(idtac).
  vm_compute in Hsel. injection Hsel as <-. vm_compute. reflexivity.
Defined.

(** X12 on the roster: one pair of a man and a woman. *)
Lemma gender_breakdown_counts_witness :
  ∃ mm num,
    demo_init demo_rows = Ok mm
    ∧ log_stats demo_ne p_gender (solver_run mm demo_out) = Ok num
    ∧ NoDup num.*1
    ∧ default 0%Z (dd_lookup "Man/Woman" num) = 1%Z.
Proof.
  destruct (gender_breakdown_counts id demo_similarity demo_preferred
              demo_pairable demo_ne p_day p_gender demo_rows demo_out)
    as (mm & Hinit & _ & Hrun).
  destruct Hrun as (num & ms & Hstats & Hms & Hnd & Hcount);
    [by_model Hinit ltac:(all_assigned)|].
  exists mm, num. split_and!; [exact Hinit|exact Hstats|exact Hnd|].
  rewrite Hcount. by_model Hinit ltac:(idtac).
  vm_compute in Hms. injection Hms as <-. vm_compute. reflexivity.
Defined.

(** X13 on the roster: two variables are set, for three participants. *)
Lemma true_variables_solved_witness :
  ∃ mm vs,
    demo_init demo_rows = Ok mm
    ∧ solved_run mm demo_out
    ∧ get_true_variables (match_tracker (solver_run mm demo_out)) = Ok vs
    ∧ 3 ≤ 2 * length vs ∧ length vs ≤ 3.
Proof.
  destruct (true_variables_solved id demo_similarity demo_preferred
              demo_pairable demo_rows demo_out)
    as (mm & Hinit & Hrun).
  assert (solved_run mm demo_out) as Hsolved
    by by_model Hinit ltac:(vm_compute; reflexivity).
  destruct (Hrun Hsolved) as (vs & Hvs & _ & _ & _ & Hbounds).
  destruct Hbounds as [Hlo Hhi]; [done|].
  exists mm, vs. split_and!; [exact Hinit|exact Hsolved|exact Hvs|exact Hlo|exact Hhi].
Defined.

(** X15 on the roster: one person not matched, one name in "Unmatched". *)
Lemma printed_counts_match_lists_witness :
  ∃ mm r,
    demo_init demo_rows = Ok mm
    ∧ solved_run mm demo_out
    ∧ demo_solve mm demo_out = Ok r
    ∧ r_not_matched r = Z.of_nat (length (r_unmatched r))
    ∧ r_num_matches r = (2 * Z.of_nat (group_total (r_days r)))%Z.
Proof.
  destruct (printed_counts_match_lists id demo_similarity demo_preferred
              demo_pairable demo_ne p_day p_gender demo_rows demo_out)
    as (mm & Hinit & Hrun).
  assert (solved_run mm demo_out) as Hsolved
    by by_model Hinit ltac:(vm_compute; reflexivity).
  destruct Hrun as (r & Hr & Hnot & Hnum);
    [exact Hsolved|by_model Hinit ltac:(exact demo_scored)| |].
  - by_model Hinit ltac:(idtac). cbn [mm_persons]. clear.
    intros [|[|[|i]]] [|[|[|j]]] p1 p2 Hp1 Hp2; cbn in Hp1, Hp2;
      simplify_eq; vm_compute; split; (done || lia).
  - exists mm, r.
    split_and!; [exact Hinit|exact Hsolved|exact Hr|exact Hnot|exact Hnum].
Defined.

(** X16 on a roster of one: Ann's similarity to herself is 0, so no pair
    has a score; her run is solved, and [solve] raises [TypeError]. *)
Lemma solve_reports_iff_witness :
  ∃ mm,
    demo_init solo_rows = Ok mm
    ∧ solved_run mm solo_out
    ∧ demo_solve mm solo_out = Raise TypeError.
Proof.
  destruct (solve_reports_iff id demo_similarity demo_preferred demo_pairable
              demo_ne p_day p_gender solo_rows solo_out)
    as (mm & Hinit & Hiff & Hcases & _).
  exists mm. split; [exact Hinit|]. split.
  { by_model Hinit ltac:(vm_compute; reflexivity). }
  destruct Hcases as [Hr|Hraise]; [|exact Hraise].
  apply Hiff in Hr as [(pm & p1 & p2 & Hpm & Hpp & Hnz) _]. exfalso.
  revert pm p1 p2 Hpm Hpp Hnz. by_model Hinit ltac:(idtac).
  cbn [mm_persons]. intros pm p1 p2 Hpm (i & j & -> & Hp1 & Hp2) Hnz.
  vm_compute in Hpm. apply list_elem_of_singleton in Hpm as [= -> ->].
  cbn in Hp1, Hp2. by simplify_eq.
Defined.
